(** * TCSinger-App: the note parser, the MIDI converter and the audio helpers

    A shallow embedding of [utils/audio_utils.py] and of the synthesis stub of
    [utils/model_loader.py], followed by the model loader, the settings of
    [app/config.py] and the synthesis handler of [app/demo.py].

    Conventions.
    - A Python [str] is a [string]; each [ascii] stands for the code point of
      the same number, so the strings covered are those whose code points lie
      in 0..255.  Code point 178 is SUPERSCRIPT TWO, 160 is NO-BREAK SPACE, and
      so on: a character above 127 is *not* a UTF-8 byte.
    - A Python [int] is a [Z].
    - A raised exception is a value of [exn] carried by [result].
    - The builtins ([str.strip], [str.split], [str.lower], [str.isdigit],
      [int]) are written out for these strings in module [Py]; the one
      setting of the interpreter they depend on is the class [Interpreter].
    - The memory NumPy can get for an array is the class [Memory]. *)

From Stdlib Require Import ZArith Ascii SpecFloat.
From Stdlib Require String.
From stdpp Require Import base option list gmap strings.

Local Open Scope Z_scope.

(** ** Exceptions *)

(** The exceptions the modelled code raises or meets.  [ValueError msg] is a
    [ValueError] with the message [msg]; [ValueError_int s] is the
    [ValueError] that [int(s)] raises on a bad literal (invalid literal for
    int() with base 10, and [s] quoted); [ValueError_int_digits n] is the
    one it raises on a literal of [n] digits, more than the interpreter
    converts (exceeds the limit for integer string conversion);
    [OverflowError msg] is raised by conversions between [int] and
    [float]; [MemoryError] is raised by NumPy when it gets no memory for
    an array. *)
Inductive exn : Type :=
  | ValueError (msg : string)
  | ValueError_int (literal : string)
  | ValueError_int_digits (digits : Z)
  | OverflowError (msg : string)
  | MemoryError.

Inductive result (A : Type) : Type :=
  | Ok (a : A)
  | Raise (e : exn).
Arguments Ok {A} a.
Arguments Raise {A} e.

#[global] Instance result_ret : MRet result := fun _ a => Ok a.
#[global] Instance result_bind : MBind result := fun _ _ f m =>
  match m with
  | Ok a => f a
  | Raise e => Raise e
  end.

Definition is_ValueError (e : exn) : bool :=
  match e with
  | ValueError _ | ValueError_int _ | ValueError_int_digits _ => true
  | OverflowError _ | MemoryError => false
  end.

(** [try: body except ValueError: handler]; another exception passes. *)
Definition try_except_ValueError {A} (body handler : result A) : result A :=
  match body with
  | Ok a => Ok a
  | Raise e => if is_ValueError e then handler else Raise e
  end.

Definition succeeds {A} (r : result A) : Prop := exists a, r = Ok a.

(** ** The interpreter

    [max_str_digits] is [sys.get_int_max_str_digits()]: the most digits
    [int] converts, 0 for no limit.  CPython 3.11 and later start with 4300
    and accept 0 or a number above 640; [cpython] is that default, and a
    statement that names no interpreter is about it. *)
Class Interpreter : Type := { max_str_digits : Z }.

#[global] Instance cpython : Interpreter := {| max_str_digits := 4300 |}.

(** ** The memory

    [can_allocate n]: the allocator has room for an array of [n] samples.
    [unbounded] has room for every array; a statement that names no memory
    is about it. *)
Class Memory : Type := { can_allocate : Z -> bool }.

#[global] Instance unbounded : Memory := {| can_allocate := fun _ => true |}.

(** ** Python's string builtins on code points 0..255 *)

Module Py.

Definition ord (c : ascii) : Z := Z.of_N (N_of_ascii c).
Definition chr (n : Z) : ascii := ascii_of_N (Z.to_N n).

Definition between (lo hi n : Z) : bool := (lo <=? n) && (n <=? hi).

(** [str.isspace] of one character: TAB..CR, FS..US, SPACE, NEL, NBSP. *)
Definition isspace (c : ascii) : bool :=
  let n := ord c in
  between 9 13 n || between 28 32 n || (n =? 133) || (n =? 160).

(** [str.lower] of one character: A..Z and the capital letters of
    Latin-1 (192..222 without the multiplication sign 215). *)
Definition lower_char (c : ascii) : ascii :=
  let n := ord c in
  if between 65 90 n || between 192 214 n || between 216 222 n
  then chr (n + 32) else c.

(** The decimal value of a character of category Nd, here [0]..[9]. *)
Definition decimal_value (c : ascii) : option Z :=
  let n := ord c in
  if between 48 57 n then Some (n - 48) else None.

(** Characters with Numeric_Type Digit or Decimal: [0]..[9] and the
    superscripts two (178), three (179) and one (185). *)
Definition isdigit_char (c : ascii) : bool :=
  let n := ord c in
  between 48 57 n || (n =? 178) || (n =? 179) || (n =? 185).

Fixpoint all_chars (p : ascii -> bool) (s : string) : bool :=
  match s with
  | EmptyString => true
  | String c s' => p c && all_chars p s'
  end.

Definition is_empty (s : string) : bool :=
  match s with EmptyString => true | _ => false end.

(** [s.isdigit()]: at least one character and all of them digits. *)
Definition isdigit (s : string) : bool :=
  negb (is_empty s) && all_chars isdigit_char s.

Fixpoint lower (s : string) : string :=
  match s with
  | EmptyString => EmptyString
  | String c s' => String (lower_char c) (lower s')
  end.

Fixpoint lstrip_by (p : ascii -> bool) (s : string) : string :=
  match s with
  | EmptyString => EmptyString
  | String c s' => if p c then lstrip_by p s' else s
  end.

Fixpoint rstrip_by (p : ascii -> bool) (s : string) : string :=
  match s with
  | EmptyString => EmptyString
  | String c s' =>
      let r := rstrip_by p s' in
      if p c && is_empty r then EmptyString else String c r
  end.

(** [s.strip()] *)
Definition strip (s : string) : string := rstrip_by isspace (lstrip_by isspace s).

(** [s.split()]: [word] is the word being read, if any. *)
Fixpoint split_from (word : option string) (s : string) : list string :=
  match s with
  | EmptyString =>
      match word with Some w => [w] | None => [] end
  | String c s' =>
      if isspace c then
        match word with
        | Some w => w :: split_from None s'
        | None => split_from None s'
        end
      else
        split_from (Some (default EmptyString word +:+ String c EmptyString)) s'
  end.

Definition split (s : string) : list string := split_from None s.

(** [len(s)], [s[-1]] as a one-character string ([IndexError] on the empty
    string is not modelled: the only caller checks the length first) and
    [s[:-1]]. *)
Definition len (s : string) : Z := Z.of_nat (String.length s).

Fixpoint last_char (s : string) : string :=
  match s with
  | EmptyString => EmptyString
  | String c EmptyString => s
  | String _ s' => last_char s'
  end.

Fixpoint but_last (s : string) : string :=
  match s with
  | EmptyString => EmptyString
  | String c EmptyString => EmptyString
  | String c s' => String c (but_last s')
  end.

(** *** [int(s)], base 10 *)

(** Blanks that [int] skips at both ends: TAB..CR, SPACE, NEL, NBSP.
    (FS..US are blanks for [strip] and [split] but not for [int].) *)
Definition int_blank (c : ascii) : bool :=
  let n := ord c in
  between 9 13 n || (n =? 32) || (n =? 133) || (n =? 160).

(** What the scan of the digits of a literal gives. *)
Inductive int_scan : Type :=
  | Scanned (value : Z)
  | BadLiteral
  | TooManyDigits (digits : Z).

Section Int.
Context {py : Interpreter}.

(** A run of more than 640 digits is checked against the limit. *)
Definition over_limit (digits : Z) : bool :=
  (640 <? digits) && (0 <? max_str_digits) && (max_str_digits <? digits).

(** Digits with single underscores between them; [digits] counts the digits
    read and [after_digit] says that the previous character was one.  The
    count is checked where the run of digits ends, before what follows it
    is looked at. *)
Fixpoint int_digits (acc digits : Z) (after_digit : bool) (s : string) : int_scan :=
  match s with
  | EmptyString =>
      if after_digit then
        if over_limit digits then TooManyDigits digits else Scanned acc
      else BadLiteral
  | String c s' =>
      match decimal_value c with
      | Some d => int_digits (10 * acc + d) (digits + 1) true s'
      | None =>
          if ord c =? 95 then
            if after_digit then int_digits acc digits false s' else BadLiteral
          else if after_digit && over_limit digits then TooManyDigits digits
          else BadLiteral
      end
  end.

Definition int_signed (s : string) : int_scan :=
  match s with
  | String c s' =>
      if ord c =? 45 then
        match int_digits 0 0 false s' with
        | Scanned n => Scanned (- n)
        | other => other
        end
      else if ord c =? 43 then int_digits 0 0 false s'
      else int_digits 0 0 false s
  | EmptyString => BadLiteral
  end.

(** [int(s)]: the value, or a [ValueError]. *)
Definition int (s : string) : result Z :=
  match int_signed (rstrip_by int_blank (lstrip_by int_blank s)) with
  | Scanned n => Ok n
  | BadLiteral => Raise (ValueError_int s)
  | TooManyDigits digits => Raise (ValueError_int_digits digits)
  end.

End Int.

(** [s * n], for the examples. *)
Fixpoint times (s : string) (n : nat) : string :=
  match n with
  | O => EmptyString
  | S n' => s +:+ times s n'
  end.

End Py.

(** ** [parse_notes] *)

(** The dictionaries [parse_notes] builds: [{'type': 'rest'}],
    [{'type': 'midi', 'value': n}] and [{'type': 'name', 'value': s}]. *)
Inductive parsed_note : Type :=
  | Rest
  | Midi (value : Z)
  | Name (value : string).

Section Notes.
Context {py : Interpreter}.

(** The body of the [for] loop: the entry appended for one word. *)
Definition parse_note (note : string) : result parsed_note :=
  if String.eqb (Py.lower note) "rest" then Ok Rest
  else if Py.isdigit note then
    value ← Py.int note; Ok (Midi value)
  else Ok (Name note).

(** The loop over [notes], appending to [parsed]. *)
Fixpoint parse_loop (notes : list string) (parsed : list parsed_note)
  : result (list parsed_note) :=
  match notes with
  | [] => Ok parsed
  | note :: notes' =>
      entry ← parse_note note; parse_loop notes' (parsed ++ [entry])
  end.

Definition parse_notes (notes_str : string) : result (list parsed_note) :=
  let notes := Py.split (Py.strip notes_str) in
  parse_loop notes [].

(** ** [note_to_midi] *)

Definition note_map : gmap string Z :=
  list_to_map
    [ ("C", 0); ("C#", 1); ("Db", 1); ("D", 2); ("D#", 3); ("Eb", 3);
      ("E", 4); ("F", 5); ("F#", 6); ("Gb", 6); ("G", 7); ("G#", 8);
      ("Ab", 8); ("A", 9); ("A#", 10); ("Bb", 10); ("B", 11) ].

(** The three errors of [note_to_midi], by their messages. *)
Definition InvalidNoteName (note_name : string) : exn :=
  ValueError ("Invalid note name: " +:+ note_name).
Definition InvalidOctave (note_name : string) : exn :=
  ValueError ("Invalid octave in note name: " +:+ note_name).
Definition InvalidNote (note : string) : exn :=
  ValueError ("Invalid note: " +:+ note).

Definition note_to_midi (note_name : string) : result Z :=
  if Py.len note_name <? 2 then Raise (InvalidNoteName note_name)
  else
    octave ← try_except_ValueError
                (Py.int (Py.last_char note_name))
                (Raise (InvalidOctave note_name));
    let note := Py.but_last note_name in
    match note_map !! note with
    | None => Raise (InvalidNote note)
    | Some offset => Ok (offset + (octave + 1) * 12)
    end.

End Notes.

(** ** The classification of a word, as the specification words it

    A word that is "rest" in any letter case is a rest; a word made of
    decimal digits only is a MIDI number with that value; any other word is a
    note name, kept as written. *)

Definition is_decimal_char (c : ascii) : bool := bool_decide (is_Some (Py.decimal_value c)).

Definition all_decimal (w : string) : bool :=
  negb (Py.is_empty w) && Py.all_chars is_decimal_char w.

Fixpoint decimal_number (acc : Z) (w : string) : Z :=
  match w with
  | EmptyString => acc
  | String c w' => decimal_number (10 * acc + default 0 (Py.decimal_value c)) w'
  end.

Definition token_of_word (w : string) : parsed_note :=
  if String.eqb (Py.lower w) "rest" then Rest
  else if all_decimal w then Midi (decimal_number 0 w)
  else Name w.

(** A word that [str.isdigit] accepts and [int] rejects: all of its
    characters are digits, and one of them is a superscript or they are
    more than the interpreter converts. *)
Definition int_rejects {py : Interpreter} (w : string) : bool :=
  Py.isdigit w && negb (all_decimal w && negb (Py.over_limit (Py.len w))).

(** Whitespace-delimited words, written out: a text is a run of blanks
    followed by words, each with the blanks after it; only the last word may
    have none. *)
Definition is_word (w : string) : Prop :=
  w <> "" /\ Py.all_chars (fun c => negb (Py.isspace c)) w = true.

Definition is_blank (s : string) : Prop := Py.all_chars Py.isspace s = true.

Fixpoint join_words (ws : list (string * string)) : string :=
  match ws with
  | [] => ""
  | (w, sep) :: ws' => w +:+ sep +:+ join_words ws'
  end.

Fixpoint words_ok (ws : list (string * string)) : Prop :=
  match ws with
  | [] => True
  | (w, sep) :: ws' =>
      is_word w /\ is_blank sep /\ (sep = "" -> ws' = []) /\ words_ok ws'
  end.

(** ** Floating-point numbers

    A float is a [spec_float] of the format given by [prec] (bits of the
    mantissa) and [emax]: 53 and 1024 for Python's [float] and NumPy's
    [float64], 24 and 128 for [float32].  Products, sums, quotients, square
    roots and comparisons are the IEEE 754 ones of [SpecFloat]. *)

Abbreviation float := spec_float.

Module Float.

Definition zero : float := S754_zero false.
Definition nan : float := S754_nan.

Definition is_nan (x : float) : bool :=
  match x with S754_nan => true | _ => false end.

Section Format.
Variables prec emax : Z.

(** The float nearest to an integer (ties to even). *)
Definition of_int (n : Z) : float := binary_normalize prec emax n 0 false.

Definition one : float := of_int 1.

(** A float that stands for a number of the format. *)
Definition valid (x : float) : Prop := valid_binary prec emax x = true.

End Format.

(** [lo <= x <= hi], false on a NaN. *)
Definition in_range (lo hi x : float) : bool := SFleb lo x && SFleb x hi.

(** [int(x)]: the integer part, towards zero. *)
Definition trunc (x : float) : result Z :=
  match x with
  | S754_nan => Raise (ValueError "cannot convert float NaN to integer")
  | S754_infinity _ => Raise (OverflowError "cannot convert float infinity to integer")
  | S754_zero _ => Ok 0
  | S754_finite s m e => Ok (cond_Zopp s (Z.shiftl (Zpos m) e))
  end.

(** The largest integer not above [x], for a finite [x]. *)
Definition floor (x : float) : option Z :=
  match x with
  | S754_zero _ => Some 0
  | S754_finite s m e => Some (Z.shiftl (cond_Zopp s (Zpos m)) e)
  | _ => None
  end.

(** An [int] operand of a float operation: [OverflowError] when it is
    beyond the format. *)
Definition float_of_int (prec emax n : Z) : result float :=
  match of_int prec emax n with
  | S754_infinity _ => Raise (OverflowError "int too large to convert to float")
  | x => Ok x
  end.

End Float.

(** ** NumPy *)

Module np.

(** The largest index of a platform with 64-bit indices, and the bytes of
    a [float64], the item [np.zeros] makes when no type is given. *)
Definition max_intp : Z := 2 ^ 63 - 1.
Definition itemsize : Z := 8.

(** [np.zeros(n)] for an [int] [n].  NumPy converts [n] to an index, which
    fails outside [-2^63 .. 2^63 - 1]; then it refuses a negative length;
    then it refuses an array of more bytes than an index counts; then it
    asks for the memory, and raises [MemoryError] when there is none.
    [synthesize] calls [torch.zeros] with 144000, which gives as many
    zeros; it is modelled with the memory that has room for them. *)
Definition zeros {mem : Memory} (n : Z) : result (list float) :=
  if (n <? - max_intp - 1) || (max_intp <? n) then
    Raise (ValueError "Maximum allowed dimension exceeded")
  else if n <? 0 then
    Raise (ValueError "negative dimensions are not allowed")
  else if max_intp <? itemsize * n then
    Raise (ValueError "array is too big; `arr.size * arr.dtype.itemsize` is larger than the maximum possible size.")
  else if can_allocate n then Ok (replicate (Z.to_nat n) Float.zero)
  else Raise MemoryError.

Section Format.
Variables prec emax : Z.

(** NumPy adds the elements of an array in blocks and pairs, not from left
    to right.  [sums_to xs s]: [s] is a sum of [xs] in some order and some
    grouping, started from zeros. *)
Inductive sums_to : list float -> float -> Prop :=
  | sums_to_nil (sign : bool) : sums_to [] (S754_zero sign)
  | sums_to_one (x : float) : sums_to [x] x
  | sums_to_app (xs ys : list float) (a b : float) :
      sums_to xs a -> sums_to ys b -> sums_to (xs ++ ys) (SFadd prec emax a b)
  | sums_to_perm (xs ys : list float) (a : float) :
      xs ≡ₚ ys -> sums_to xs a -> sums_to ys a.

(** The sum from 0.0, left to right: one of these sums. *)
Definition sum_ltr (xs : list float) : float :=
  foldl (SFadd prec emax) Float.zero xs.

(** [np.mean]: the sum [np_sum] of the elements divided by their number. *)
Definition mean (np_sum : list float -> float) (xs : list float) : float :=
  SFdiv prec emax (np_sum xs) (Float.of_int prec emax (Z.of_nat (length xs))).

Definition sqrt (x : float) : float := SFsqrt prec emax x.

(** [audio ** 2], elementwise. *)
Definition square (xs : list float) : list float :=
  (fun x => SFmul prec emax x x) <$> xs.

End Format.

(** [np.clip(x, lo, hi)] is [min(max(x, lo), hi)], where a NaN [x] is
    kept. *)
Definition maximum (x lo : float) : float :=
  if Float.is_nan x then x else if SFltb lo x then x else lo.

Definition minimum (x hi : float) : float :=
  if Float.is_nan x then x else if SFltb x hi then x else hi.

Definition clip (x lo hi : float) : float := minimum (maximum x lo) hi.

End np.

(** ** [generate_silence] *)

Definition generate_silence {mem : Memory} (duration : float) (sr : Z)
  : result (list float) :=
  sr_float ← Float.float_of_int 53 1024 sr;
  n ← Float.trunc (SFmul 53 1024 duration sr_float);
  np.zeros n.

(** ** [normalize_audio]

    The array and the level are floats of one format, [prec] and [emax].
    [np_sum] is the sum [np.mean] takes, [np_log10] and [np_power] are
    NumPy's [log10] and [**] on floats: the order of the first and the
    rounding of the others are NumPy's and the platform's, so the three are
    parameters. *)

Section NormalizeAudio.
Variables prec emax : Z.
Variable np_sum : list float -> float.
Variable np_log10 : float -> float.
Variable np_power : float -> float -> float.

Let int_ := Float.of_int prec emax.

(** [np.sqrt(np.mean(audio**2))] *)
Definition rms_of (audio : list float) : float :=
  np.sqrt prec emax (np.mean prec emax np_sum (np.square prec emax audio)).

Definition normalize_audio (audio : list float) (target_level : float)
  : list float :=
  let rms := rms_of audio in
  let audio :=
    if SFltb (int_ 0) rms then
      let current_db := SFmul prec emax (int_ 20) (np_log10 rms) in
      let gain_db := SFsub prec emax target_level current_db in
      let gain_linear := np_power (int_ 10) (SFdiv prec emax gain_db (int_ 20)) in
      (fun x => SFmul prec emax x gain_linear) <$> audio
    else audio in
  (fun x => np.clip x (SFopp (Float.one prec emax)) (Float.one prec emax)) <$> audio.
End NormalizeAudio.

(** ** [TCSinger2Model.synthesize]

    The method prints its arguments and returns a tensor of zeros.  What it
    prints is the first component; [str_float] is the text [print] gives for
    a float and [device] is [self.device]. *)

Section Synthesize.
Variable str_float : float -> string.

Definition synthesize (device : string) (audio_prompt : list float)
    (text notes : string) (cfg_scale : float)
  : list string * result (list float) :=
  let printed :=
    [ "Synthesizing with:";
      "  - Text: " +:+ text;
      "  - Notes: " +:+ notes;
      "  - CFG Scale: " +:+ str_float cfg_scale;
      "  - Device: " +:+ device ] in
  let sample_rate := 48000 in
  let duration := Float.of_int 53 1024 3 in
  let dummy_audio :=
    rate ← Float.float_of_int 53 1024 sample_rate;
    n ← Float.trunc (SFmul 53 1024 rate duration);
    np.zeros n in
  (printed, dummy_audio).
End Synthesize.

(** ** Sizes of floats, for the proofs about [normalize_audio] *)

(** The position of the leading bit of [m * 2^e]. *)
Definition mag (m : positive) (e : Z) : Z := Zpos (digits2_pos m) + e.

(** A NaN, a zero, a positive number or plus infinity. *)
Definition not_negative (x : float) : Prop :=
  match x with
  | S754_nan | S754_zero _ | S754_infinity false | S754_finite false _ _ => True
  | _ => False
  end.

(** A NaN, plus infinity, or a positive number whose leading bit is at
    position [k] or above: the number is at least [2^(k-1)]. *)
Definition at_least (k : Z) (x : float) : Prop :=
  match x with
  | S754_nan | S754_infinity false => True
  | S754_finite false m e => k <= mag m e
  | _ => False
  end.

(** An infinity, or a number that is at least 1 in absolute value. *)
Definition big (x : float) : Prop :=
  match x with
  | S754_infinity _ => True
  | S754_finite _ m e => 1 <= mag m e
  | _ => False
  end.


(** Samples for the examples: -1.0, 1.0, -0.5 and [2^-600] in [float64]. *)
Definition f64_one : float := S754_finite false 4503599627370496 (-52).
Definition f64_minus_one : float := S754_finite true 4503599627370496 (-52).
Definition f64_minus_half : float := S754_finite true 4503599627370496 (-53).
Definition f64_tiny : float := S754_finite false 4503599627370496 (-652).


(** SUPERSCRIPT TWO, the one-character string of code point 178. *)
Definition superscript_two : string := String (Py.chr 178) "".

(** * The model loader and the demo application

    [utils/model_loader.py] and [app/demo.py] print, read and write files and
    call torch, librosa and soundfile.  Their code is embedded as programs
    over a machine: the state of the world outside, what has been printed,
    and the object [self] of the method that runs.  [print], the progress
    tracker and [warnings.warn] are taken not to raise; what a library
    does is left open, so a statement holds whatever the libraries do. *)

(** ** Paths and settings *)

Module os_path.

(** [os.path.join(a, *p)] as [posixpath] has it: a part that starts with a
    slash replaces what precedes it, and a slash is put between the others
    where there is none. *)
Definition join2 (path b : string) : string :=
  if String.prefix "/" b then b
  else if Py.is_empty path || String.eqb (Py.last_char path) "/" then path +:+ b
  else path +:+ "/" +:+ b.

Definition join (a : string) (p : list string) : string := foldl join2 a p.

End os_path.

(** The float of a literal with one decimal, [n / 10]: the literal and the
    quotient are both rounded to the nearest float. *)
Definition tenths (n : Z) : float :=
  SFdiv 53 1024 (Float.of_int 53 1024 n) (Float.of_int 53 1024 10).

(** A tensor of this program: one dimension, [float32], on a device. *)
Record tensor : Type := Tensor { tensor_device : string; tensor_data : list float }.

(** What the code takes from outside.  [World] is the state of the file
    system and of the devices; a call of a library changes it and returns
    or raises a [LibraryError].  [MPS_AVAILABLE] is the constant of
    [model_loader.py], set when the module is loaded; [config_dirname] is
    [os.path.dirname(__file__)] in [app/config.py]; [nn_Module] is the type
    of a loaded network; [str_of_float] is [str] of a float;
    [numpy_sum], [numpy_log10] and [numpy_power] are NumPy's on [float32]. *)
Class Platform : Type := {
  World : Type;
  LibraryError : Type;
  nn_Module : Type;
  MPS_AVAILABLE : bool;
  config_dirname : string;
  torch_cuda_is_available : World -> bool;
  os_makedirs : string -> World -> World * option LibraryError;
  os_path_exists : string -> World -> bool;
  torch_load : string -> string -> World -> World * option LibraryError;
  nn_Module_to : nn_Module -> string -> World -> World * (LibraryError + nn_Module);
  Tensor_to : tensor -> string -> World -> World * (LibraryError + tensor);
  Tensor_cpu : tensor -> World -> World * (LibraryError + tensor);
  librosa_load : string -> Z -> bool -> World -> World * (LibraryError + list float * Z);
  sf_write : string -> list float -> Z -> World -> World * option LibraryError;
  tempfile_mkdtemp : World -> World * (LibraryError + string);
  str_of_float : float -> string;
  numpy_sum : list float -> float;
  numpy_log10 : float -> float;
  numpy_power : float -> float -> float;
}.

Module config.

Definition MODEL_NAME : string := "tcsinger2".
Definition SAMPLE_RATE : Z := 48000.
Definition HOP_LENGTH : Z := 512.
Definition WIN_LENGTH : Z := 2048.

Definition MODEL_DIR {pf : Platform} : string :=
  os_path.join config_dirname [".."; "models"].
Definition CACHE_DIR {pf : Platform} : string :=
  os_path.join MODEL_DIR ["cache"].

Definition MAX_AUDIO_LENGTH : Z := 30.
Definition DEFAULT_CFG_SCALE : float := tenths 35.

Definition USE_MPS : bool := true.
Definition DEVICE : string := if USE_MPS then "mps" else "cpu".

Definition EXAMPLE_LYRICS : list string :=
  [ "Hello world, this is a singing voice synthesis demo";
    "I love music and technology combined together";
    "The future of AI is bright and amazing" ].

Definition EXAMPLE_NOTES : list string :=
  [ "C4 D4 E4 F4 G4 A4 B4 C5";
    "60 62 64 65 67 69 71 72";
    "rest C4 E4 G4 rest" ].

End config.

(** ** Programs *)

Section Machine.
Context {pf : Platform}.

(** What [except Exception] catches: an exception of the code modelled
    above, the [TypeError] of [Tensor.numpy], an exception of a library,
    and [ValueError(prefix + str(cause))], which [load_audio] and
    [save_audio] raise. *)
Inductive error : Type :=
  | Builtin (e : exn)
  | TypeError (msg : string)
  | Library (e : LibraryError)
  | ValueError_from (prefix : string) (cause : error).

Inductive outcome (A : Type) : Type :=
  | Returns (a : A)
  | Raises (e : error).

(** The texts printed and returned hold characters beyond code point 255,
    so a text is named by the statement that builds it, with the values it
    interpolates.  [Text s] is a text given in full. *)
Inductive message : Type :=
  | Text (s : string)
  | MpsAvailable                (* Apple Metal (MPS) backend is available *)
  | CudaAvailable               (* CUDA backend is available *)
  | UsingCpu                    (* Using CPU backend (slower) *)
  | NoCheckpoint                (* No checkpoint provided. Using placeholder model. ... *)
  | LoadedModelFrom (checkpoint_path : string)
  | FailedToLoadModel (e : error)
  | CreatingPlaceholder         (* Creating placeholder model for demonstration... *)
  | Initializing                (* Initializing TCSinger2 Demo App... *)
  | TemporaryDirectory (temp_dir : string)
  | InitializationComplete      (* Initialization complete! *)
  | PleaseUploadAudioPrompt     (* Please upload an audio prompt file *)
  | PleaseEnterLyrics           (* Please enter lyrics text *)
  | PleaseEnterNotes            (* Please enter musical notes *)
  | ErrorDuringSynthesis (e : error)
  | SynthesisComplete (lyrics notes : string) (cfg_scale : float)
      (device : string) (output_length : float).

(** [Print]: a call of [print]; [Warn]: a call of [warnings.warn] (what the
    warning filters do with it is not modelled); [Progress]: a call of the
    progress tracker of the user interface. *)
Inductive output : Type :=
  | Print (msg : message)
  | Warn (msg : message)
  | Progress (fraction : float) (desc : string).

Record machine (Self : Type) : Type :=
  Machine { world : World; out : list output; self : Self }.

End Machine.

Arguments Returns {pf A} a.
Arguments Raises {pf A} e.
Arguments Machine {pf Self} world out self.
Arguments world {pf Self} m.
Arguments out {pf Self} m.
Arguments self {pf Self} m.

Section Programs.
Context {pf : Platform}.

(** A program that runs with [self : Self] and returns an [A] or raises.
    What a program did before it raised stays done. *)
Definition M (Self A : Type) : Type := machine Self -> machine Self * outcome A.

#[global] Instance M_ret {Self} : MRet (M Self) := fun _ a m => (m, Returns a).
#[global] Instance M_bind {Self} : MBind (M Self) := fun _ _ f body m =>
  match body m with
  | (m', Returns a) => f a m'
  | (m', Raises e) => (m', Raises e)
  end.

Definition raise {Self A} (e : error) : M Self A := fun m => (m, Raises e).

(** A call of a function modelled above. *)
Definition lift {Self A} (r : result A) : M Self A :=
  match r with
  | Ok a => mret a
  | Raise e => raise (Builtin e)
  end.

(** [try: body except Exception as e: handler e] *)
Definition try_except {Self A} (body : M Self A) (handler : error -> M Self A)
  : M Self A := fun m =>
  match body m with
  | (m', Raises e) => handler e m'
  | returned => returned
  end.

Definition get_self {Self} : M Self Self := fun m => (m, Returns (self m)).

(** An assignment to attributes of [self]. *)
Definition assign {Self} (update : Self -> Self) : M Self unit := fun m =>
  (Machine (world m) (out m) (update (self m)), Returns ()).

Definition emit {Self} (o : output) : M Self unit := fun m =>
  (Machine (world m) (out m ++ [o]) (self m), Returns ()).
Definition print {Self} (msg : message) : M Self unit := emit (Print msg).
Definition progress {Self} (fraction : float) (desc : string) : M Self unit :=
  emit (Progress fraction desc).

(** Calls of the libraries: a query, a call that returns a value, a call
    that returns nothing. *)
Definition ask {Self A} (query : World -> A) : M Self A := fun m =>
  (m, Returns (query (world m))).

Definition call {Self A} (f : World -> World * (LibraryError + A)) : M Self A :=
  fun m =>
    let (w, r) := f (world m) in
    (Machine w (out m) (self m),
     match r with inl e => Raises (Library e) | inr a => Returns a end).

Definition call_ {Self} (f : World -> World * option LibraryError) : M Self unit :=
  fun m =>
    let (w, r) := f (world m) in
    (Machine w (out m) (self m),
     match r with Some e => Raises (Library e) | None => Returns () end).

(** A method called on the object [obj]: the object as the method leaves
    it, and what the method returns. *)
Definition on {Self T A} (obj : T) (body : M T A) : M Self (T * A) := fun m =>
  let (m', r) := body (Machine (world m) (out m) obj) in
  (Machine (world m') (out m') (self m),
   match r with Returns a => Returns (self m', a) | Raises e => Raises e end).

(** ** The rest of [audio_utils.py] *)

Definition load_audio {Self} (audio_path : string) (target_sr : Z) (mono : bool)
  : M Self (list float * Z) :=
  try_except
    ('(audio, sr) ← call (librosa_load audio_path target_sr mono);
     mret (audio, sr))
    (fun e => raise (ValueError_from "Failed to load audio: " e)).

Definition save_audio {Self} (audio : list float) (output_path : string) (sr : Z)
  : M Self string :=
  try_except
    (call_ (sf_write output_path audio sr);;
     mret output_path)
    (fun e => raise (ValueError_from "Failed to save audio: " e)).

(** [Tensor.float()] of one sample: the nearest [float32]. *)
Definition float32 (x : float) : float :=
  match x with
  | S754_finite s m e => binary_round 24 128 s m e
  | _ => x
  end.

(** [torch.from_numpy(audio)] is a tensor on the CPU. *)
Definition audio_to_tensor {Self} (audio : list float) (device : string)
  : M Self tensor :=
  let tensor := Tensor "cpu" (float32 <$> audio) in
  if negb (String.eqb device "cpu") then call (Tensor_to tensor device)
  else mret tensor.

(** [Tensor.numpy()] is for tensors on the CPU. *)
Definition Tensor_numpy {Self} (t : tensor) : M Self (list float) :=
  if String.eqb (tensor_device t) "cpu" then mret (tensor_data t)
  else raise (TypeError ("can't convert " +:+ tensor_device t +:+
    " device type tensor to numpy. Use Tensor.cpu() to copy the tensor to host memory first.")).

(** [tensor.is_cuda] holds on the devices [cuda:N]. *)
Definition tensor_to_audio {Self} (tensor : tensor) : M Self (list float) :=
  tensor ←
    (if String.prefix "cuda" (tensor_device tensor)
        || String.prefix "mps" (tensor_device tensor)
     then call (Tensor_cpu tensor) else mret tensor);
  Tensor_numpy tensor.

End Programs.

(** ** [TCSinger2Model] *)

Module TCSinger2Model.
Section Class.
Context {pf : Platform}.

Record t : Type := {
  model_path : option string;
  device : string;
  model : option nn_Module;
  vae : option nn_Module;
  vocoder : option nn_Module;
}.

Definition set_device (d : string) (this : t) : t :=
  {| model_path := model_path this; device := d;
     model := model this; vae := vae this; vocoder := vocoder this |}.
Definition set_model (md : option nn_Module) (this : t) : t :=
  {| model_path := model_path this; device := device this;
     model := md; vae := vae this; vocoder := vocoder this |}.
Definition set_vae (md : option nn_Module) (this : t) : t :=
  {| model_path := model_path this; device := device this;
     model := model this; vae := md; vocoder := vocoder this |}.
Definition set_vocoder (md : option nn_Module) (this : t) : t :=
  {| model_path := model_path this; device := device this;
     model := model this; vae := vae this; vocoder := md |}.

Definition _setup_device {Self} : M Self string :=
  if MPS_AVAILABLE then
    print MpsAvailable;; mret "mps"
  else
    cuda ← ask torch_cuda_is_available;
    if cuda : bool then print CudaAvailable;; mret "cuda"
    else print UsingCpu;; mret "cpu".

(** The constructor: the object, once both directories exist. *)
Definition __init__ (model_path : option string) : M unit t :=
  device ← _setup_device;
  call_ (os_makedirs config.MODEL_DIR);;
  call_ (os_makedirs config.CACHE_DIR);;
  mret {| model_path := model_path; device := device;
          model := None; vae := None; vocoder := None |}.

Definition _create_placeholder_model : M t unit :=
  print CreatingPlaceholder;;
  assign (set_model None);;
  assign (set_vae None);;
  assign (set_vocoder None).

Definition load_model (checkpoint_path : option string) : M t unit :=
  this ← get_self;
  let checkpoint_path :=
    match checkpoint_path with None => model_path this | given => given end in
  let placeholder : M t unit :=
    emit (Warn NoCheckpoint);; _create_placeholder_model in
  match checkpoint_path with
  | None => placeholder
  | Some checkpoint_path =>
      found ← ask (os_path_exists checkpoint_path);
      if negb found then placeholder
      else
        try_except
          (call_ (torch_load checkpoint_path (device this));;
           print (LoadedModelFrom checkpoint_path))
          (fun e =>
             print (FailedToLoadModel e);;
             _create_placeholder_model)
  end.

(** The method [synthesize] on the object [this], which it leaves as it
    is: the lines and the buffer of [synthesize] above, as a tensor. *)
Definition synthesize {Self} (this : t) (audio_prompt : tensor)
    (text notes : string) (cfg_scale : float) : M Self tensor :=
  let (printed, dummy_audio) :=
    synthesize str_of_float (device this) (tensor_data audio_prompt)
      text notes cfg_scale in
  foldr (fun line rest => print (Text line);; rest) (mret ()) printed;;
  dummy_audio ← lift dummy_audio;
  mret (Tensor "cpu" dummy_audio).

(** [to] returns [self]. *)
Definition to (device : string) : M t unit :=
  assign (set_device device);;
  this ← get_self;
  match model this with
  | Some md => md ← call (nn_Module_to md device); assign (set_model (Some md))
  | None => mret ()
  end;;
  this ← get_self;
  match vae this with
  | Some md => md ← call (nn_Module_to md device); assign (set_vae (Some md))
  | None => mret ()
  end;;
  this ← get_self;
  match vocoder this with
  | Some md => md ← call (nn_Module_to md device); assign (set_vocoder (Some md))
  | None => mret ()
  end.

End Class.
End TCSinger2Model.

Section ModelLoader.
Context {pf : Platform}.

Definition load_pretrained_model (model_id checkpoint_path cache_dir : option string)
  : M unit TCSinger2Model.t :=
  let cache_dir :=
    match cache_dir with None => Some config.CACHE_DIR | given => given end in
  model ← TCSinger2Model.__init__ checkpoint_path;
  '(model, _) ← on model (TCSinger2Model.load_model None);
  mret model.

End ModelLoader.

(** ** [TCSinger2DemoApp] *)

Module TCSinger2DemoApp.
Section Class.
Context {py : Interpreter} {pf : Platform}.

Record t : Type := {
  model : TCSinger2Model.t;
  temp_dir : string;
}.

Definition __init__ (model_path : option string) : M unit t :=
  print Initializing;;
  model ← load_pretrained_model None model_path None;
  temp_dir ← call tempfile_mkdtemp;
  print (TemporaryDirectory temp_dir);;
  print InitializationComplete;;
  mret {| model := model; temp_dir := temp_dir |}.

(** [audio_prompt] is the path of the uploaded file, or [None].  The
    synthesized tensor is [float32], and so is the array that
    [normalize_audio] gets; its level is the default, -20.0. *)
Definition synthesize_singing (audio_prompt : option string) (lyrics notes : string)
    (cfg_scale : float) : M t (option string * message) :=
  try_except
    (progress (tenths 1) "Loading audio prompt...";;
     match audio_prompt with
     | None => mret (None, PleaseUploadAudioPrompt)
     | Some audio_prompt =>
     if Py.is_empty (Py.strip lyrics) then mret (None, PleaseEnterLyrics)
     else if Py.is_empty (Py.strip notes) then mret (None, PleaseEnterNotes)
     else
       progress (tenths 2) "Processing audio prompt...";;
       '(prompt_audio, sr) ← load_audio audio_prompt config.SAMPLE_RATE true;
       this ← get_self;
       prompt_tensor ←
         audio_to_tensor prompt_audio (TCSinger2Model.device (model this));
       progress (tenths 3) "Parsing musical notes...";;
       parsed_notes ← lift (parse_notes notes);
       progress (tenths 5) "Synthesizing singing voice...";;
       output_tensor ←
         TCSinger2Model.synthesize (model this) prompt_tensor lyrics notes cfg_scale;
       progress (tenths 8) "Post-processing audio...";;
       output_audio ← tensor_to_audio output_tensor;
       let output_audio :=
         normalize_audio 24 128 numpy_sum numpy_log10 numpy_power
           output_audio (Float.of_int 24 128 (-20)) in
       progress (tenths 9) "Saving output...";;
       let output_path := os_path.join (temp_dir this) ["synthesized_output.wav"] in
       save_audio output_audio output_path config.SAMPLE_RATE;;
       progress (tenths 10) "Complete!";;
       let status :=
         SynthesisComplete lyrics notes cfg_scale
           (TCSinger2Model.device (model this))
           (SFdiv 53 1024 (Float.of_int 53 1024 (Z.of_nat (length output_audio)))
              (Float.of_int 53 1024 config.SAMPLE_RATE)) in
       mret (Some output_path, status)
     end)
    (fun e =>
       let error_msg := ErrorDuringSynthesis e in
       print error_msg;;
       mret (None, error_msg)).

End Class.
End TCSinger2DemoApp.

(** ** Notions for the statements about the loader and the demo *)


Section ModelCalls.
Context {pf : Platform}.
Import TCSinger2Model.

(** The device [_setup_device] chooses in the world [w]. *)
Definition device_chosen (w : World) : string :=
  if MPS_AVAILABLE then "mps"
  else if torch_cuda_is_available w then "cuda" else "cpu".

(** The calls the holder of a [TCSinger2Model] can make. *)
Inductive method : Type :=
  | call_load_model (checkpoint_path : option string)
  | call__create_placeholder_model
  | call_synthesize (audio_prompt : tensor) (text notes : string) (cfg_scale : float)
  | call_to (device : string).

Definition invoke (c : method) : M t unit :=
  match c with
  | call_load_model checkpoint_path => load_model checkpoint_path
  | call__create_placeholder_model => _create_placeholder_model
  | call_synthesize audio_prompt text notes cfg_scale =>
      this ← get_self;
      synthesize this audio_prompt text notes cfg_scale;;
      mret ()
  | call_to device => to device
  end.

(** The machines in which a model exists: it was constructed, and then
    methods were called on it (one that raises leaves the object as it was
    when it raised) while the world went on and other code printed. *)
Inductive reachable : machine t -> Prop :=
  | reachable_init (model_path : option string) (m m' : machine unit) (this : t) :
      __init__ model_path m = (m', Returns this) ->
      reachable (Machine (world m') (out m') this)
  | reachable_invoke (c : method) (m : machine t) :
      reachable m -> reachable (invoke c m).1
  | reachable_world (m : machine t) (w : World) (o : list output) :
      reachable m -> reachable (Machine w o (self m)).

Definition no_components (this : t) : Prop :=
  model this = None /\ vae this = None /\ vocoder this = None.

End ModelCalls.

(** A platform for the examples: no accelerator; the world is the list of
    the files written and the directories made; a file can be read once it
    is there; no checkpoint can be read. *)
Definition quiet : Platform := {|
  World := list string;
  LibraryError := string;
  nn_Module := unit;
  MPS_AVAILABLE := false;
  config_dirname := "/srv/app";
  torch_cuda_is_available := fun _ => false;
  os_makedirs := fun path w => (w ++ [path], None);
  os_path_exists := fun path w => bool_decide (path ∈ w);
  torch_load := fun path device w => (w, Some "not a checkpoint");
  nn_Module_to := fun md device w => (w, inr md);
  Tensor_to := fun t device w => (w, inr (Tensor device (tensor_data t)));
  Tensor_cpu := fun t w => (w, inr (Tensor "cpu" (tensor_data t)));
  librosa_load := fun path sr mono w =>
    (w, if bool_decide (path ∈ w) then inr ([Float.zero], sr)
        else inl "no such file");
  sf_write := fun path audio sr w => (w ++ [path], None);
  tempfile_mkdtemp := fun w => (w ++ ["/tmp/demo"], inr "/tmp/demo");
  str_of_float := fun _ => "3.5";
  numpy_sum := np.sum_ltr 24 128;
  numpy_log10 := fun x => x;
  numpy_power := fun _ y => y;
|}.

(** On that platform: the model and the application that the
    constructors give in the empty world, and the machine with a recording
    at hand. *)
Definition quiet_model : @TCSinger2Model.t quiet :=
  {| TCSinger2Model.model_path := None; TCSinger2Model.device := "cpu";
     TCSinger2Model.model := None; TCSinger2Model.vae := None;
     TCSinger2Model.vocoder := None |}.

Definition quiet_app : @TCSinger2DemoApp.t quiet :=
  {| TCSinger2DemoApp.model := quiet_model; TCSinger2DemoApp.temp_dir := "/tmp/demo" |}.

Definition quiet_machine : @machine quiet (@TCSinger2DemoApp.t quiet) :=
  Machine (pf := quiet) ["a.wav"] [] quiet_app.

(** * Facts about the builtins *)

Module PyFacts.
Import Py.

Lemma app_cons (c : ascii) (s t : string) :
  String c s +:+ t = String c (s +:+ t).
Proof. reflexivity. Qed.

Lemma app_empty_r (s : string) : s +:+ "" = s.
Proof. induction s as [|c s IH]; [done|]. by rewrite app_cons, IH. Qed.

Lemma len_snoc (s : string) (c : ascii) :
  len (s +:+ String c "") = len s + 1.
Proof.
  unfold len. induction s as [|a s IH]; [done|].
  rewrite app_cons. cbn [String.length]. lia.
Qed.

Lemma len_nonneg (s : string) : 0 <= len s.
Proof. unfold len. lia. Qed.

Lemma last_char_snoc (s : string) (c : ascii) :
  last_char (s +:+ String c "") = String c "".
Proof.
  induction s as [|a s IH]; [done|].
  rewrite app_cons. cbn [last_char]. rewrite IH.
  by destruct s.
Qed.

Lemma but_last_snoc (s : string) (c : ascii) :
  but_last (s +:+ String c "") = s.
Proof.
  induction s as [|a s IH]; [done|].
  rewrite app_cons. cbn [but_last]. rewrite IH.
  by destruct s.
Qed.

(** A non-empty string is its [s[:-1]] followed by its last character. *)
Lemma snoc_view (s : string) :
  s <> "" -> exists c, last_char s = String c "" /\ s = but_last s +:+ String c "".
Proof.
  induction s as [|a s IH]; [done|]. intros _.
  destruct s as [|b s].
  - by exists a.
  - destruct IH as (c & Hl & Hs); [done|].
    exists c. split; [exact Hl|].
    change (but_last (String a (String b s)))
      with (String a (but_last (String b s))).
    by rewrite app_cons, <- Hs.
Qed.

(** [int] of a single character succeeds on the ten decimal digits only,
    whatever the interpreter's limit. *)
Lemma int_char {py : Interpreter} (c : ascii) :
  int (String c "") =
    match decimal_value c with
    | Some d => Ok d
    | None => Raise (ValueError_int (String c ""))
    end.
Proof. by destruct c as [[] [] [] [] [] [] [] []]. Qed.

(** What [int] raises is a [ValueError]. *)
Lemma int_raises {py : Interpreter} (s : string) (e : exn) :
  int s = Raise e -> is_ValueError e = true.
Proof. unfold int. destruct (int_signed _); [done|by intros [= <-]..]. Qed.

Lemma len_cons (c : ascii) (s : string) : len (String c s) = 1 + len s.
Proof. unfold len. cbn [String.length]. lia. Qed.

Lemma decimal_value_range (c : ascii) (d : Z) :
  decimal_value c = Some d -> 0 <= d <= 9.
Proof.
  unfold decimal_value, between. intros H.
  destruct (_ && _) eqn:E; [|done]. injection H as <-. lia.
Qed.

Lemma decimal_is_digit (c : ascii) :
  is_Some (decimal_value c) -> isdigit_char c = true.
Proof.
  unfold decimal_value, isdigit_char. intros [d H].
  by destruct (between 48 57 (ord c)).
Qed.

End PyFacts.

(** * [note_to_midi] *)

Section NoteToMidi.
Import Py PyFacts.
Context {py : Interpreter}.

(** The table read as the list it is built from. *)
Lemma note_map_cases (spelling : string) (offset : Z) :
  note_map !! spelling = Some offset ->
  (spelling, offset) ∈
    [ ("C", 0); ("C#", 1); ("Db", 1); ("D", 2); ("D#", 3); ("Eb", 3);
      ("E", 4); ("F", 5); ("F#", 6); ("Gb", 6); ("G", 7); ("G#", 8);
      ("Ab", 8); ("A", 9); ("A#", 10); ("Bb", 10); ("B", 11) ].
Proof. apply elem_of_list_to_map_2. Qed.

Ltac table_cases H :=
  apply note_map_cases in H;
  repeat (apply elem_of_cons in H as [H|H]; [injection H as -> ->|]);
  [..|by apply elem_of_nil in H].

Lemma note_map_offset_range (spelling : string) (offset : Z) :
  note_map !! spelling = Some offset -> 0 <= offset <= 11.
Proof. intros H. table_cases H; lia. Qed.

Lemma note_map_nonempty (spelling : string) (offset : Z) :
  note_map !! spelling = Some offset -> spelling <> "".
Proof. intros H. table_cases H; done. Qed.

(** No spelling of the table ends in a decimal digit. *)
Lemma note_map_no_digit (s : string) (c : ascii) (offset : Z) :
  note_map !! (s +:+ String c "") = Some offset -> decimal_value c = None.
Proof.
  intros H.
  assert (exists k, k = s +:+ String c "" /\ note_map !! k = Some offset)
    as (k & Hk & Hl) by eauto.
  apply (f_equal last_char) in Hk. rewrite last_char_snoc in Hk.
  table_cases Hl; cbn in Hk; by injection Hk as <-.
Qed.

(** The successful path, for a name written as spelling and last character. *)
Lemma note_to_midi_snoc (spelling : string) (o : ascii) :
  spelling <> "" ->
  note_to_midi (spelling +:+ String o "") =
    match decimal_value o with
    | None => Raise (InvalidOctave (spelling +:+ String o ""))
    | Some octave =>
        match note_map !! spelling with
        | None => Raise (InvalidNote spelling)
        | Some offset => Ok (offset + (octave + 1) * 12)
        end
    end.
Proof.
  intros Hne. unfold note_to_midi.
  assert ((len (spelling +:+ String o "") <? 2) = false) as ->.
  { rewrite len_snoc. destruct spelling as [|a s]; [done|].
    pose proof (len_nonneg s). unfold len in *. cbn [String.length].
    apply Z.ltb_ge. lia. }
  rewrite last_char_snoc, but_last_snoc, int_char.
  by destruct (decimal_value o).
Qed.

(** What a successful conversion tells about its input. *)
Lemma note_to_midi_inv (note_name : string) (midi : Z) :
  note_to_midi note_name = Ok midi ->
  exists spelling o offset octave,
    note_name = spelling +:+ String o "" /\
    note_map !! spelling = Some offset /\
    decimal_value o = Some octave /\
    midi = offset + (octave + 1) * 12.
Proof.
  intros H.
  destruct (decide (note_name = "")) as [->|Hne]; [done|].
  destruct (snoc_view note_name Hne) as (o & _ & Hs).
  destruct (decide (but_last note_name = "")) as [He|Hsp].
  { rewrite He in Hs. by rewrite Hs in H. }
  rewrite Hs, note_to_midi_snoc in H by done.
  destruct (decimal_value o) as [octave|] eqn:Ho; [|done].
  destruct (note_map !! but_last note_name) as [offset|] eqn:Hm; [|done].
  injection H as <-. by exists (but_last note_name), o, offset, octave.
Qed.

End NoteToMidi.

(** C1.  A spelling of the table followed by one decimal digit converts to
    [table[spelling] + (octave + 1) * 12]; so C4 is 60 and A4 is 69. *)
Theorem note_to_midi_formula {py : Interpreter} :
  (forall (spelling : string) (o : ascii) (offset octave : Z),
      note_map !! spelling = Some offset ->
      Py.decimal_value o = Some octave ->
      note_to_midi (spelling +:+ String o "") = Ok (offset + (octave + 1) * 12))
  /\ note_to_midi "C4" = Ok 60
  /\ note_to_midi "A4" = Ok 69.
Proof.
  split; [|done].
  intros spelling o offset octave Hm Ho.
  rewrite note_to_midi_snoc by eauto using note_map_nonempty.
  by rewrite Ho, Hm.
Qed.

Lemma note_to_midi_formula_witness : note_to_midi "G#2" = Ok (8 + (2 + 1) * 12).
Proof.
  exact (proj1 note_to_midi_formula "G#" "2"%char 8 2 eq_refl eq_refl).
Defined.

(** C3.  [note_to_midi] raises in three cases, tried in this order: the
    name has fewer than two characters (invalid note name); [int] rejects
    its last character (invalid octave); the characters before the last
    are not a key of the table (invalid note).  In every other case it
    returns a number.  "H9" is an invalid note, "C" is too short. *)
Theorem note_to_midi_errors {py : Interpreter} :
  (forall note_name : string,
      (Py.len note_name < 2 ->
       note_to_midi note_name = Raise (InvalidNoteName note_name))
      /\ (2 <= Py.len note_name ->
          ~ succeeds (Py.int (Py.last_char note_name)) ->
          note_to_midi note_name = Raise (InvalidOctave note_name))
      /\ (2 <= Py.len note_name ->
          succeeds (Py.int (Py.last_char note_name)) ->
          note_map !! Py.but_last note_name = None ->
          note_to_midi note_name = Raise (InvalidNote (Py.but_last note_name)))
      /\ (2 <= Py.len note_name ->
          succeeds (Py.int (Py.last_char note_name)) ->
          is_Some (note_map !! Py.but_last note_name) ->
          succeeds (note_to_midi note_name)))
  /\ note_to_midi "H9" = Raise (InvalidNote "H")
  /\ note_to_midi "C" = Raise (InvalidNoteName "C").
Proof.
  split; [|done].
  intros note_name. unfold note_to_midi.
  destruct (Z.ltb_spec (Py.len note_name) 2) as [Hlt|Hge].
  { split; [done|]. repeat split; intros; lia. }
  split; [intros; lia|].
  destruct (Py.int (Py.last_char note_name)) as [octave|e] eqn:Hint; cbn.
  - split; [intros _ []; by exists octave|].
    split.
    + by intros _ _ ->.
    + intros _ _ [offset ->]. by eexists.
  - apply PyFacts.int_raises in Hint as ->.
    split; [done|]. split; intros _ [? [=]].
Qed.

Lemma note_to_midi_errors_witness :
  note_to_midi "Cx" = Raise (InvalidOctave "Cx")
  /\ note_to_midi "H9" = Raise (InvalidNote "H")
  /\ succeeds (note_to_midi "Bb3").
Proof.
  pose proof (proj1 note_to_midi_errors) as H.
  split; [|split].
  - apply (H "Cx"); [vm_compute; discriminate|]. intros [? [=]].
  - apply (H "H9"); [vm_compute; discriminate| by exists 9 | reflexivity].
  - apply (H "Bb3"); [vm_compute; discriminate| by exists 3 | by exists 10].
Defined.

(** C8.  Enharmonic spellings convert alike in every octave: C# and Db,
    D# and Eb, F# and Gb, G# and Ab, A# and Bb; C#4 and Db4 are both 61;
    every offset of the table lies in 0..11. *)
Theorem enharmonic_spellings {py : Interpreter} :
  (forall (o : ascii) (octave : Z),
      Py.decimal_value o = Some octave ->
      let same a b :=
        exists midi, note_to_midi (a +:+ String o "") = Ok midi
                     /\ note_to_midi (b +:+ String o "") = Ok midi in
      same "C#" "Db" /\ same "D#" "Eb" /\ same "F#" "Gb"
      /\ same "G#" "Ab" /\ same "A#" "Bb")
  /\ note_to_midi "C#4" = Ok 61
  /\ note_to_midi "Db4" = Ok 61
  /\ map_Forall (fun _ offset => 0 <= offset <= 11) note_map.
Proof.
  split; [|split; [done|split; [done|]]].
  - intros o octave Ho same. subst same. cbv beta.
    repeat split; eexists; rewrite !note_to_midi_snoc, Ho by done; done.
  - intros spelling offset. apply note_map_offset_range.
Qed.

Lemma enharmonic_spellings_witness :
  exists midi, note_to_midi "F#7" = Ok midi /\ note_to_midi "Gb7" = Ok midi.
Proof.
  exact (proj1 (proj2 (proj2 (proj1 enharmonic_spellings "7"%char 7 eq_refl)))).
Defined.

(** C10.  The octave is the last character alone: a successful result lies
    in 12..131, and a name that ends in two decimal digits, like "C10",
    is never converted (its first digit is read as part of the spelling). *)
Theorem note_to_midi_range {py : Interpreter} :
  (forall (note_name : string) (midi : Z),
      note_to_midi note_name = Ok midi -> 12 <= midi <= 131)
  /\ (forall (s : string) (d1 d2 : ascii),
         is_Some (Py.decimal_value d1) -> is_Some (Py.decimal_value d2) ->
         note_to_midi (s +:+ String d1 (String d2 "")) =
           Raise (InvalidNote (s +:+ String d1 "")))
  /\ note_to_midi "C10" = Raise (InvalidNote "C1").
Proof.
  split; [|split; [|done]].
  - intros note_name midi H.
    apply note_to_midi_inv in H as (spelling & o & offset & octave & _ & Hm & Ho & ->).
    apply note_map_offset_range in Hm. apply PyFacts.decimal_value_range in Ho. lia.
  - intros s d1 d2 [v1 H1] [v2 H2].
    assert (s +:+ String d1 (String d2 "") = (s +:+ String d1 "") +:+ String d2 "") as ->.
    { induction s as [|a s IH]; [done|]. by rewrite !PyFacts.app_cons, IH. }
    rewrite note_to_midi_snoc by (by destruct s). rewrite H2.
    destruct (note_map !! (s +:+ String d1 "")) as [offset|] eqn:Hm; [|done].
    apply note_map_no_digit in Hm. congruence.
Qed.

Lemma note_to_midi_range_witness :
  12 <= 131 <= 131
  /\ note_to_midi "Ab12" = Raise (InvalidNote "Ab1").
Proof.
  split.
  - exact (proj1 note_to_midi_range "B9" 131 eq_refl).
  - apply (proj1 (proj2 note_to_midi_range) "Ab" "1"%char "2"%char); by eexists.
Defined.


(** * [parse_notes] *)

Section ParseNotes.
Import Py PyFacts.
Context {py : Interpreter}.

(** ** [split] and [strip] *)

Lemma split_from_lstrip (s : string) :
  split_from None (lstrip_by isspace s) = split_from None s.
Proof.
  induction s as [|c s IH]; [done|].
  cbn [lstrip_by]. destruct (isspace c) eqn:Hc; [|done].
  cbn [split_from]. by rewrite Hc.
Qed.

Lemma split_from_blank (s : string) :
  is_blank s -> split_from None s = [].
Proof.
  unfold is_blank. induction s as [|c s IH]; [done|].
  cbn [all_chars split_from]. intros [-> ?]%andb_prop. auto.
Qed.

Lemma rstrip_empty_blank (s : string) :
  rstrip_by isspace s = "" -> is_blank s.
Proof.
  unfold is_blank. induction s as [|c s IH]; [done|].
  cbn [rstrip_by all_chars].
  destruct (isspace c); [|done].
  destruct (rstrip_by isspace s); [auto|done].
Qed.

Lemma split_from_rstrip (word : option string) (s : string) :
  split_from word (rstrip_by isspace s) = split_from word s.
Proof.
  revert word. induction s as [|c s IH]; [done|]. intros word.
  cbn [rstrip_by].
  destruct (isspace c && is_empty (rstrip_by isspace s)) eqn:E.
  - apply andb_prop in E as [Hc He].
    assert (rstrip_by isspace s = "") as Hr
      by (by destruct (rstrip_by isspace s)).
    cbn [split_from]. rewrite Hc.
    rewrite (split_from_blank s) by by apply rstrip_empty_blank.
    by destruct word.
  - cbn [split_from]. rewrite !IH. done.
Qed.

(** Leading and trailing blanks do not change the words. *)
Lemma split_strip (s : string) : split (strip s) = split s.
Proof.
  unfold split, strip. by rewrite split_from_rstrip, split_from_lstrip.
Qed.

Lemma split_from_skip (lead s : string) :
  is_blank lead -> split_from None (lead +:+ s) = split_from None s.
Proof.
  unfold is_blank. induction lead as [|c lead IH]; [done|].
  rewrite app_cons. cbn [all_chars split_from].
  intros [-> ?]%andb_prop. auto.
Qed.

Lemma split_from_word (acc w s : string) :
  all_chars (fun c => negb (isspace c)) w = true ->
  split_from (Some acc) (w +:+ s) = split_from (Some (acc +:+ w)) s.
Proof.
  revert acc. induction w as [|c w IH]; intros acc.
  - by rewrite app_empty_r.
  - rewrite app_cons. cbn [all_chars split_from].
    intros [Hc ?]%andb_prop. apply negb_true_iff in Hc. rewrite Hc.
    change (default "" (Some acc)) with acc. rewrite IH by done. do 2 f_equal.
    clear. induction acc as [|a acc IH]; [done|]. by rewrite !app_cons, IH.
Qed.

Lemma split_from_start (w s : string) :
  is_word w -> split_from None (w +:+ s) = split_from (Some w) s.
Proof.
  intros [Hne Hw]. destruct w as [|c w]; [done|].
  rewrite app_cons. cbn [all_chars split_from] in *.
  apply andb_prop in Hw as [Hc Hw]. apply negb_true_iff in Hc. rewrite Hc.
  change (default "" None +:+ String c "") with (String c "").
  by rewrite split_from_word.
Qed.

Lemma split_from_sep (w sep s : string) :
  is_blank sep -> sep <> "" ->
  split_from (Some w) (sep +:+ s) = w :: split_from None s.
Proof.
  intros Hb Hne. destruct sep as [|c sep]; [done|].
  unfold is_blank in Hb. cbn [all_chars] in Hb.
  apply andb_prop in Hb as [Hc Hb].
  rewrite app_cons. cbn [split_from]. rewrite Hc.
  by rewrite split_from_skip.
Qed.

(** [split] returns the whitespace-delimited words, in order. *)
Lemma split_join_words (lead : string) (ws : list (string * string)) :
  is_blank lead -> words_ok ws ->
  split (lead +:+ join_words ws) = ws.*1.
Proof.
  intros Hl Hws. unfold split. rewrite split_from_skip by done. clear lead Hl.
  induction ws as [|[w sep] ws IH]; [done|].
  destruct Hws as (Hw & Hsep & Hlast & Hws).
  cbn [join_words fmap list_fmap fst]. rewrite split_from_start by done.
  destruct (decide (sep = "")) as [->|Hne].
  - rewrite (Hlast eq_refl). done.
  - rewrite split_from_sep by done. f_equal. by apply IH.
Qed.

(** Every text is blanks followed by words with their blanks. *)
Lemma words_exist (s : string) :
  exists lead ws, is_blank lead /\ words_ok ws /\ s = lead +:+ join_words ws.
Proof.
  induction s as [|c s (lead & ws & Hl & Hws & ->)].
  { by exists "", []. }
  destruct (isspace c) eqn:Hc.
  { exists (String c lead), ws. repeat split; [|done].
    unfold is_blank. cbn [all_chars]. by rewrite Hc. }
  assert (is_word (String c "")) as Hw1.
  { split; [done|]. cbn [all_chars]. by rewrite Hc. }
  destruct lead as [|b lead].
  - destruct ws as [|[w sep] ws].
    + exists "", [(String c "", "")]. cbn [words_ok]. by repeat split; try apply Hw1.
    + exists "", ((String c w, sep) :: ws).
      destruct Hws as ((Hne & Hw) & Hsep & Hlast & Hws).
      split; [done|]. split; [|reflexivity].
      cbn [words_ok]. repeat split; try done.
      cbn [all_chars]. by rewrite Hc.
  - exists "", ((String c "", String b lead) :: ws).
    split; [done|]. split; [|reflexivity].
    cbn [words_ok]. by repeat split; try apply Hw1.
Qed.

(** ** [int] on the words [isdigit] accepts *)

Lemma isdigit_char_facts (c : ascii) :
  isdigit_char c = true ->
  int_blank c = false /\ (ord c =? 45) = false /\ (ord c =? 43) = false
  /\ (ord c =? 95) = false.
Proof. by destruct c as [[] [] [] [] [] [] [] []]. Qed.

Lemma lstrip_digits (w : string) :
  all_chars isdigit_char w = true -> lstrip_by int_blank w = w.
Proof.
  destruct w as [|c w]; [done|]. cbn [all_chars lstrip_by].
  intros [Hc _]%andb_prop. by destruct (isdigit_char_facts c Hc) as (-> & _).
Qed.

Lemma rstrip_digits (w : string) :
  all_chars isdigit_char w = true -> rstrip_by int_blank w = w.
Proof.
  induction w as [|c w IH]; [done|]. cbn [all_chars rstrip_by].
  intros [Hc Hw]%andb_prop. rewrite IH by done.
  by destruct (isdigit_char_facts c Hc) as (-> & _).
Qed.

Lemma int_digits_decimal (acc digits : Z) (after : bool) (w : string) :
  all_chars is_decimal_char w = true ->
  after || negb (is_empty w) = true ->
  int_digits acc digits after w =
    if over_limit (digits + len w) then TooManyDigits (digits + len w)
    else Scanned (decimal_number acc w).
Proof.
  revert acc digits after. induction w as [|c w IH]; intros acc digits after.
  - cbn. rewrite orb_false_r, Z.add_0_r. by intros _ ->.
  - cbn [all_chars int_digits decimal_number].
    intros [Hc Hw]%andb_prop _.
    apply bool_decide_eq_true in Hc as [d Hd]. rewrite Hd. cbn [default].
    rewrite IH, len_cons by done.
    by replace (digits + 1 + len w) with (digits + (1 + len w)) by lia.
Qed.

Lemma int_digits_superscript (acc digits : Z) (after : bool) (w : string) :
  all_chars isdigit_char w = true ->
  all_chars is_decimal_char w = false ->
  forall n : Z, int_digits acc digits after w <> Scanned n.
Proof.
  revert acc digits after.
  induction w as [|c w IH]; intros acc digits after; [done|].
  cbn [all_chars int_digits].
  intros [Hc Hw]%andb_prop Hd n.
  destruct (decimal_value c) as [d|] eqn:Hv.
  - apply IH; [done|].
    unfold is_decimal_char in Hd. rewrite Hv in Hd.
    rewrite bool_decide_eq_true_2 in Hd by eauto. done.
  - destruct (isdigit_char_facts c Hc) as (_ & _ & _ & ->).
    by destruct (after && over_limit digits).
Qed.

Lemma decimal_chars_are_digits (w : string) :
  all_chars is_decimal_char w = true -> all_chars isdigit_char w = true.
Proof.
  induction w as [|c w IH]; [done|]. cbn [all_chars].
  intros [Hc Hw]%andb_prop. apply bool_decide_eq_true in Hc.
  by rewrite decimal_is_digit, IH.
Qed.

Lemma int_signed_digits (w : string) :
  all_chars isdigit_char w = true ->
  int_signed w = int_digits 0 0 false w.
Proof.
  destruct w as [|c w]; [done|]. cbn [all_chars].
  intros [Hc _]%andb_prop. unfold int_signed.
  by destruct (isdigit_char_facts c Hc) as (_ & -> & -> & _).
Qed.

(** [int] on a word [isdigit] accepts: the number it writes when all its
    digits are decimal and within the limit, an error otherwise. *)
Lemma int_of_digits (w : string) :
  isdigit w = true ->
  if int_rejects w then exists e : exn, int w = Raise e
  else int w = Ok (decimal_number 0 w).
Proof.
  unfold int_rejects. intros Hdig. rewrite Hdig. cbn [andb].
  revert Hdig. unfold isdigit, all_decimal, int. intros [Hne Hw]%andb_prop.
  rewrite lstrip_digits, rstrip_digits, int_signed_digits by done.
  rewrite Hne. cbn [andb].
  destruct (all_chars is_decimal_char w) eqn:Hd; cbn [andb negb].
  - rewrite int_digits_decimal, Z.add_0_l; [|done|by rewrite Hne].
    destruct (over_limit (len w)); cbn [negb]; eauto.
  - pose proof (int_digits_superscript 0 0 false w Hw Hd) as Hs.
    destruct (int_digits 0 0 false w) as [n| |digits]; [by destruct (Hs n)|eauto..].
Qed.

(** ** The loop *)

Lemma rest_is_not_digits (w : string) :
  String.eqb (lower w) "rest" = true -> isdigit w = false.
Proof.
  intros Hr%String.eqb_eq. destruct w as [|c w]; [done|].
  unfold isdigit. cbn [is_empty negb andb all_chars lower] in *.
  injection Hr as Hc _.
  destruct (isdigit_char c) eqn:E; [|done]. exfalso.
  revert Hc E. by destruct c as [[] [] [] [] [] [] [] []].
Qed.

(** One word: the specified token, unless [int] rejects the word. *)
Lemma parse_note_spec (w : string) :
  if int_rejects w then exists e : exn, parse_note w = Raise e
  else parse_note w = Ok (token_of_word w).
Proof.
  unfold parse_note, token_of_word.
  destruct (String.eqb (lower w) "rest") eqn:Hr.
  { unfold int_rejects. by rewrite (rest_is_not_digits w Hr). }
  destruct (isdigit w) eqn:Hd.
  - pose proof (int_of_digits w Hd) as Hint.
    destruct (int_rejects w) eqn:Hrej.
    + destruct Hint as [e ->]. by exists e.
    + rewrite Hint. cbn.
      unfold int_rejects in Hrej. rewrite Hd in Hrej. cbn [andb] in Hrej.
      apply negb_false_iff, andb_prop in Hrej as [-> _]. done.
  - unfold int_rejects. rewrite Hd. cbn [andb].
    destruct (all_decimal w) eqn:Ha; [|done].
    unfold all_decimal, isdigit in *.
    apply andb_prop in Ha as [Hne Ha].
    by rewrite Hne, decimal_chars_are_digits in Hd.
Qed.

Lemma parse_loop_spec (notes : list string) (parsed : list parsed_note) :
  match List.find int_rejects notes with
  | Some w => exists e : exn, parse_loop notes parsed = Raise e
  | None => parse_loop notes parsed = Ok (parsed ++ map token_of_word notes)
  end.
Proof.
  revert parsed. induction notes as [|w notes IH]; intros parsed.
  - cbn. by rewrite app_nil_r.
  - cbn [parse_loop List.find map]. pose proof (parse_note_spec w) as Hw.
    destruct (int_rejects w).
    + destruct Hw as [e ->]. by exists e.
    + rewrite Hw. cbn. specialize (IH (parsed ++ [token_of_word w])).
      destruct (List.find _ _); [done|].
      by rewrite IH, <- app_assoc.
Qed.

(** [parse_notes], completely: it raises when [int] rejects one of the
    words, and returns the tokens of the words when it rejects none. *)
Lemma parse_notes_spec (notes_str : string) :
  match List.find int_rejects (split notes_str) with
  | Some w => exists e : exn, parse_notes notes_str = Raise e
  | None => parse_notes notes_str = Ok (map token_of_word (split notes_str))
  end.
Proof.
  unfold parse_notes. cbv zeta. rewrite split_strip.
  apply (parse_loop_spec (split notes_str) []).
Qed.

(** The claim of the specification, where it holds: a text none of whose
    words [int] rejects yields one token per whitespace-delimited word, in
    order. *)
Lemma parse_notes_words (lead : string) (ws : list (string * string)) :
  is_blank lead -> words_ok ws ->
  Forall (fun w => int_rejects w = false) ws.*1 ->
  parse_notes (lead +:+ join_words ws) = Ok (map token_of_word ws.*1).
Proof.
  intros Hl Hws Hok.
  pose proof (parse_notes_spec (lead +:+ join_words ws)) as Hspec.
  rewrite split_join_words in Hspec by done.
  destruct (List.find _ _) as [w|] eqn:Hf; [|done].
  apply List.find_some in Hf as [Hin Hbad].
  rewrite Forall_forall in Hok.
  apply list_elem_of_In in Hin. by rewrite (Hok w Hin) in Hbad.
Qed.

(** [parse_notes] raises exactly on the texts with a word [int] rejects. *)
Lemma parse_notes_raises_iff (notes_str : string) :
  (exists e : exn, parse_notes notes_str = Raise e) <->
  (exists w : string, w ∈ split notes_str /\ int_rejects w = true).
Proof.
  pose proof (parse_notes_spec notes_str) as Hspec.
  destruct (List.find _ _) as [w|] eqn:Hf.
  - apply List.find_some in Hf as [Hin Hbad]. apply list_elem_of_In in Hin.
    split; eauto.
  - rewrite Hspec. split; [by intros [e [=]]|].
    intros (w & Hin & Hbad). apply list_elem_of_In in Hin.
    by rewrite (List.find_none _ _ Hf w Hin) in Hbad.
Qed.

End ParseNotes.

(** C4.  Parsing is not total.  Under every setting of the interpreter,
    [parse_notes] raises exactly on the texts with a word that [isdigit]
    accepts and [int] rejects; the one-word text made of a superscript two
    is such a text: [isdigit] holds of it, [int] raises on it, and so does
    [parse_notes]. *)
Theorem parse_notes_raises {py : Interpreter} :
  (forall notes_str : string,
      (exists e : exn, parse_notes notes_str = Raise e) <->
      (exists w : string, w ∈ Py.split notes_str /\ int_rejects w = true))
  /\ Py.isdigit superscript_two = true
  /\ Py.int superscript_two = Raise (ValueError_int superscript_two)
  /\ parse_notes superscript_two = Raise (ValueError_int superscript_two).
Proof. split; [apply parse_notes_raises_iff|done]. Qed.

(** C2.  Under every setting of the interpreter, a text none of whose words
    [int] rejects gives one token per whitespace-delimited word, in order,
    each the token the specification names.  The text "C4", blank,
    superscript two has two words, and the token of the second would be a
    note name; [parse_notes] returns no tokens for it: it raises on the
    second word. *)
Theorem parse_notes_tokens {py : Interpreter} :
  (forall (lead : string) (ws : list (string * string)),
      is_blank lead -> words_ok ws ->
      Forall (fun w => int_rejects w = false) ws.*1 ->
      parse_notes (lead +:+ join_words ws) = Ok (token_of_word <$> ws.*1))
  /\ Py.split ("C4 " +:+ superscript_two) = ["C4"; superscript_two]
  /\ token_of_word superscript_two = Name superscript_two
  /\ parse_notes ("C4 " +:+ superscript_two) = Raise (ValueError_int superscript_two).
Proof. split; [apply parse_notes_words|done]. Qed.

Lemma parse_notes_tokens_witness :
  parse_notes "  C4 rest	60 " = Ok [Name "C4"; Rest; Midi 60].
Proof.
  apply (proj1 parse_notes_tokens "  " [("C4", " "); ("rest", "	"); ("60", " ")]).
  - reflexivity.
  - cbn. by repeat split.
  - by repeat constructor.
Defined.

(** With the limit of 4300 digits, a word of 4301 decimal digits is another
    text on which [parse_notes] raises. *)
Lemma parse_notes_long_number :
  parse_notes (Py.times "1" 4301) = Raise (ValueError_int_digits 4301).
Proof. vm_compute. reflexivity. Qed.

(** The examples of the specification. *)
Example parse_notes_examples {py : Interpreter} :
  parse_notes "" = Ok []
  /\ parse_notes "C4 D4 rest E4" = Ok [Name "C4"; Name "D4"; Rest; Name "E4"]
  /\ parse_notes "60 62 64" = Ok [Midi 60; Midi 62; Midi 64]
  /\ parse_notes "	 REST  007
 bb3 " = Ok [Rest; Midi 7; Name "bb3"].
Proof. done. Qed.

(** * Rounding

    What the proofs about [normalize_audio] need of [SpecFloat]'s rounding:
    a rounded positive number keeps its leading bit or moves it up by one,
    so a sum, a quotient or a root of numbers that are large enough is not
    zero. *)

Section Digits.

Lemma digits2_pos_bounds (m : positive) :
  2 ^ (Zpos (digits2_pos m) - 1) <= Zpos m < 2 ^ Zpos (digits2_pos m).
Proof.
  induction m as [m IH|m IH|]; cbn [digits2_pos]; [| |done].
  all: rewrite Pos2Z.inj_succ;
    replace (Z.succ (Zpos (digits2_pos m)) - 1) with (Z.succ (Zpos (digits2_pos m) - 1)) by lia;
    rewrite !Z.pow_succ_r by lia; lia.
Qed.

Lemma digits2_pos_ge (m : positive) (k : Z) :
  2 ^ (k - 1) <= Zpos m -> k <= Zpos (digits2_pos m).
Proof.
  intros H. destruct (digits2_pos_bounds m) as [_ Hm].
  destruct (Z.le_gt_cases k (Zpos (digits2_pos m))) as [|Hgt]; [done|].
  assert (2 ^ Zpos (digits2_pos m) <= 2 ^ (k - 1)) by (apply Z.pow_le_mono_r; lia).
  lia.
Qed.

Lemma digits2_pos_le (m : positive) (k : Z) :
  0 <= k -> Zpos m < 2 ^ k -> Zpos (digits2_pos m) <= k.
Proof.
  intros Hk H. destruct (digits2_pos_bounds m) as [Hm _].
  destruct (Z.le_gt_cases (Zpos (digits2_pos m)) k) as [|Hgt]; [done|].
  assert (2 ^ k <= 2 ^ (Zpos (digits2_pos m) - 1)) by (apply Z.pow_le_mono_r; lia).
  lia.
Qed.

Lemma digits2_pos_mono (m n : positive) :
  (m <= n)%positive -> Zpos (digits2_pos m) <= Zpos (digits2_pos n).
Proof.
  intros H. apply digits2_pos_ge.
  destruct (digits2_pos_bounds m) as [Hm _]. lia.
Qed.

Lemma digits2_pos_succ (m : positive) :
  Zpos (digits2_pos (m + 1)) <= Zpos (digits2_pos m) + 1.
Proof.
  apply digits2_pos_le; [lia|].
  destruct (digits2_pos_bounds m) as [_ Hm].
  rewrite Z.pow_add_r by lia. lia.
Qed.

Lemma digits2_pos_shiftl (m d : positive) :
  digits2_pos (Pos.iter xO m d) = (digits2_pos m + d)%positive.
Proof.
  induction d as [|d IH] using Pos.peano_ind.
  - cbn. lia.
  - rewrite Pos.iter_succ. cbn [digits2_pos]. rewrite IH. lia.
Qed.

Lemma shiftl_pos (m d : positive) : Zpos (Pos.iter xO m d) = Zpos m * 2 ^ Zpos d.
Proof.
  induction d as [|d IH] using Pos.peano_ind.
  - cbn. lia.
  - rewrite Pos.iter_succ, Pos2Z.inj_succ, Z.pow_succ_r by lia.
    rewrite Pos2Z.inj_xO, IH. lia.
Qed.

End Digits.

Section ShiftRight.

Lemma iter_pos_iter {A} (f : A -> A) (p : positive) (x : A) :
  SpecFloat.iter_pos f p x = Pos.iter f x p.
Proof.
  revert x. induction p as [p IH|p IH|]; intros x; cbn [SpecFloat.iter_pos Pos.iter]; [| |done].
  - by rewrite !IH, <- !Pos.iter_swap.
  - by rewrite !IH.
Qed.

Lemma shr_1_m (mrs : shr_record) :
  0 <= shr_m mrs -> shr_m (shr_1 mrs) = Z.div2 (shr_m mrs).
Proof. destruct mrs as [[|[m|m|]|m] r s]; cbn; done || lia. Qed.

(** Shifting a record right divides its mantissa by a power of two. *)
Lemma shr_m_iter (p : positive) (mrs : shr_record) :
  0 <= shr_m mrs ->
  shr_m (SpecFloat.iter_pos shr_1 p mrs) = shr_m mrs / 2 ^ Zpos p.
Proof.
  intros Hm. rewrite iter_pos_iter, <- Z.shiftr_div_pow2 by lia.
  change (Z.shiftr (shr_m mrs) (Zpos p)) with (Pos.iter Z.div2 (shr_m mrs) p).
  induction p as [|p IH] using Pos.peano_ind.
  - cbn. by apply shr_1_m.
  - rewrite !Pos.iter_succ, <- IH. apply shr_1_m.
    rewrite IH. clear IH.
    induction p as [|p IH] using Pos.peano_ind; cbn [Pos.iter].
    + rewrite Z.div2_div. apply Z.div_pos; lia.
    + rewrite Pos.iter_succ, Z.div2_div. apply Z.div_pos; lia.
Qed.

Lemma shr_record_of_loc_m (m : Z) (l : location) :
  shr_m (shr_record_of_loc m l) = m.
Proof. by destruct l as [|[]]. Qed.

Lemma round_nearest_even_cases (m : Z) (l : location) :
  round_nearest_even m l = m \/ round_nearest_even m l = m + 1.
Proof. destruct l as [|[]]; cbn; auto. destruct (Z.even m); auto. Qed.

End ShiftRight.

Section Round.
Variables prec emax : Z.
Hypothesis Hprec : 0 < prec.

Local Abbreviation fexp := (fexp prec emax).
Local Abbreviation emin := (emin prec emax).

Lemma fexp_lt (x : Z) : emin < x -> fexp x < x.
Proof. unfold SpecFloat.fexp. lia. Qed.

Lemma fexp_mono (x y : Z) : x <= y -> fexp x <= fexp y.
Proof. unfold SpecFloat.fexp. lia. Qed.

Lemma shr_fexp_nonneg (m e : Z) (l : location) :
  0 <= m -> 0 <= shr_m (shr_fexp prec emax m e l).1.
Proof.
  intros Hm. unfold shr_fexp, shr.
  destruct (_ - e) as [|p|p]; cbn [fst]; rewrite ?shr_record_of_loc_m; [done| |done].
  rewrite shr_m_iter by by rewrite shr_record_of_loc_m.
  rewrite shr_record_of_loc_m. apply Z.div_pos; lia.
Qed.

(** Rounding a non-negative mantissa never gives a NaN. *)
Lemma binary_round_aux_not_nan (sx : bool) (m e : Z) (l : location) :
  0 <= m -> binary_round_aux prec emax sx m e l <> S754_nan.
Proof.
  intros Hm. unfold binary_round_aux.
  pose proof (shr_fexp_nonneg m e l Hm) as H1.
  destruct (shr_fexp prec emax m e l) as [mrs' e']. cbn [fst] in H1.
  set (m2 := round_nearest_even _ _).
  assert (0 <= m2) as H2.
  { subst m2. destruct (round_nearest_even_cases (shr_m mrs') (loc_of_shr_record mrs')) as [->| ->]; lia. }
  pose proof (shr_fexp_nonneg m2 e' loc_Exact H2) as H3.
  destruct (shr_fexp prec emax m2 e' loc_Exact) as [mrs'' e'']. cbn [fst] in H3.
  destruct (shr_m mrs'') as [|p|p]; [done| |lia].
  by destruct (e'' <=? emax - prec).
Qed.

(** Shifting to the exponent of the format keeps the leading bit where it
    is, as long as it lies above the smallest exponent. *)
Lemma shr_fexp_spec (m : positive) (e : Z) (l : location) :
  emin < mag m e ->
  exists (mrs : shr_record) (m1 : positive) (e1 : Z),
    shr_fexp prec emax (Zpos m) e l = (mrs, e1)
    /\ shr_m mrs = Zpos m1
    /\ mag m1 e1 = mag m e
    /\ e1 = Z.max e (fexp (mag m e)).
Proof.
  intros Hmag. unfold shr_fexp, shr. cbn [Zdigits2]. fold (mag m e).
  pose proof (fexp_lt _ Hmag) as Hlt.
  destruct (fexp (mag m e) - e) as [|p|p] eqn:Hn.
  - exists (shr_record_of_loc (Zpos m) l), m, e.
    rewrite shr_record_of_loc_m. repeat split; lia.
  - pose proof (digits2_pos_bounds m) as [Hlo Hhi].
    set (d := Zpos (digits2_pos m)) in *.
    assert (Zpos p < d) as Hp by (unfold mag in *; lia).
    set (q := Zpos m / 2 ^ Zpos p).
    assert (2 ^ (d - 1 - Zpos p) <= q < 2 ^ (d - Zpos p)) as [Hq1 Hq2].
    { subst q. split.
      - apply Z.div_le_lower_bound; [lia|].
        rewrite <- Z.pow_add_r by lia.
        by replace (Zpos p + (d - 1 - Zpos p)) with (d - 1) by lia.
      - apply Z.div_lt_upper_bound; [lia|].
        rewrite <- Z.pow_add_r by lia.
        by replace (Zpos p + (d - Zpos p)) with d by lia. }
    assert (0 < 2 ^ (d - 1 - Zpos p)) by (apply Z.pow_pos_nonneg; lia).
    destruct q as [|m1|] eqn:Hq; [lia| |lia].
    eexists _, m1, _. split; [reflexivity|].
    rewrite shr_m_iter by (rewrite shr_record_of_loc_m; lia).
    rewrite shr_record_of_loc_m. fold q. rewrite Hq.
    split; [done|]. split; [|lia].
    unfold mag. fold d.
    pose proof (digits2_pos_ge m1 (d - Zpos p)) as Hge.
    pose proof (digits2_pos_le m1 (d - Zpos p)) as Hle.
    replace (d - Zpos p - 1) with (d - 1 - Zpos p) in Hge by lia.
    lia.
  - exists (shr_record_of_loc (Zpos m) l), m, e.
    rewrite shr_record_of_loc_m. repeat split; lia.
Qed.

(** Rounding [m * 2^e]: the result is finite or infinite, of the sign
    given, and its leading bit is that of [m * 2^e] or the next one. *)
Lemma binary_round_aux_spec (sx : bool) (m : positive) (e : Z) (l : location) :
  emin < mag m e ->
  exists (m' : positive) (e' : Z),
    binary_round_aux prec emax sx (Zpos m) e l =
      (if e' <=? emax - prec then S754_finite sx m' e' else S754_infinity sx)
    /\ mag m e <= mag m' e' <= mag m e + 1
    /\ (e <= fexp (mag m e) -> e' = fexp (mag m' e')).
Proof.
  intros Hmag. unfold binary_round_aux.
  destruct (shr_fexp_spec m e l Hmag) as (mrs & m1 & e1 & -> & Hm1 & Hmag1 & He1).
  rewrite Hm1.
  assert (exists m2 : positive,
             round_nearest_even (Zpos m1) (loc_of_shr_record mrs) = Zpos m2
             /\ mag m1 e1 <= mag m2 e1 <= mag m1 e1 + 1) as (m2 & -> & Hmag2).
  { destruct (round_nearest_even_cases (Zpos m1) (loc_of_shr_record mrs)) as [->| ->].
    - exists m1. split; [done|lia].
    - exists (m1 + 1)%positive. split; [done|]. unfold mag.
      pose proof (digits2_pos_succ m1).
      pose proof (digits2_pos_mono m1 (m1 + 1) ltac:(lia)). lia. }
  destruct (shr_fexp_spec m2 e1 loc_Exact ltac:(lia)) as (mrs2 & m3 & e2 & -> & -> & Hmag3 & He2).
  exists m3, e2. split; [done|]. split; [lia|].
  intros Hcan. rewrite Hmag3.
  pose proof (fexp_mono (mag m e) (mag m2 e1) ltac:(lia)). lia.
Qed.

Lemma shl_align_spec (m : positive) (e e0 : Z) :
  exists (m' : positive) (e' : Z),
    shl_align m e e0 = (m', e') /\ mag m' e' = mag m e /\ e' = Z.min e e0
    /\ Zpos m' = Zpos m * 2 ^ (e - e').
Proof.
  unfold shl_align. destruct (e0 - e) as [|d|d] eqn:Hd.
  - exists m, e. repeat split; [lia|]. rewrite Z.sub_diag. lia.
  - exists m, e. repeat split; [lia|]. rewrite Z.sub_diag. lia.
  - exists (Pos.iter xO m d), e0. split; [done|]. unfold mag.
    rewrite digits2_pos_shiftl, shiftl_pos.
    replace (e - e0) with (Zpos d) by lia. repeat split; lia.
Qed.

(** [binary_round], used for sums and for integers. *)
Lemma binary_round_spec (sx : bool) (m : positive) (e : Z) :
  emin < mag m e ->
  exists (m' : positive) (e' : Z),
    binary_round prec emax sx m e =
      (if e' <=? emax - prec then S754_finite sx m' e' else S754_infinity sx)
    /\ mag m e <= mag m' e' <= mag m e + 1
    /\ e' = fexp (mag m' e').
Proof.
  intros Hmag. unfold binary_round. fold (mag m e).
  destruct (shl_align_spec m e (fexp (mag m e))) as (mz & ez & -> & Hmz & Hez & _).
  destruct (binary_round_aux_spec sx mz ez loc_Exact ltac:(lia))
    as (m' & e' & -> & Hb & Hcan).
  exists m', e'. split; [done|]. split; [lia|].
  apply Hcan. rewrite Hmz. lia.
Qed.

End Round.

(** * Sums of squares, means and square roots *)

Section Operations.
Variables prec emax : Z.
Hypothesis Hprec : 2 < prec.
Hypothesis Hemax : prec < emax.

Local Abbreviation fexp := (fexp prec emax).
Local Abbreviation emin := (emin prec emax).

Let Hprec0 : 0 < prec.
Proof. lia. Qed.

Lemma at_least_mono (k k' : Z) (x : float) : k' <= k -> at_least k x -> at_least k' x.
Proof. destruct x as [| [] | | [] ]; cbn; lia || done. Qed.

(** The rounded value of a positive [m * 2^e] above the smallest exponent. *)
Lemma binary_round_aux_at_least (m : positive) (e : Z) (l : location) :
  emin < mag m e ->
  at_least (mag m e) (binary_round_aux prec emax false (Zpos m) e l).
Proof.
  intros Hmag.
  destruct (binary_round_aux_spec prec emax Hprec0 false m e l Hmag)
    as (m' & e' & -> & Hb & _).
  destruct (e' <=? emax - prec); cbn; lia || done.
Qed.

Lemma binary_round_aux_not_negative (m e : Z) (l : location) :
  0 <= m -> not_negative (binary_round_aux prec emax false m e l).
Proof.
  intros Hm. pose proof (binary_round_aux_not_nan prec emax false m e l Hm) as Hn.
  revert Hn. unfold binary_round_aux.
  destruct (shr_fexp prec emax m e l) as [mrs' e'].
  destruct (shr_fexp prec emax _ e' loc_Exact) as [mrs'' e''].
  destruct (shr_m mrs''); [done| |done].
  by destruct (e'' <=? emax - prec).
Qed.

(** ** Sums *)

Lemma add_finite (m1 m2 : positive) (e1 e2 : Z) :
  exists (m : positive) (e : Z),
    SFadd prec emax (S754_finite false m1 e1) (S754_finite false m2 e2) =
      binary_round prec emax false m e
    /\ mag m1 e1 <= mag m e /\ mag m2 e2 <= mag m e.
Proof.
  cbn [SFadd cond_Zopp].
  destruct (shl_align_spec m1 e1 (Z.min e1 e2)) as (n1 & f1 & -> & H1 & Hf1 & _).
  destruct (shl_align_spec m2 e2 (Z.min e1 e2)) as (n2 & f2 & -> & H2 & Hf2 & _).
  cbn [fst]. exists (n1 + n2)%positive, (Z.min e1 e2).
  split; [done|]. unfold mag in *.
  pose proof (digits2_pos_mono n1 (n1 + n2) ltac:(lia)).
  pose proof (digits2_pos_mono n2 (n1 + n2) ltac:(lia)).
  lia.
Qed.

Lemma binary_round_not_negative (m : positive) (e : Z) :
  not_negative (binary_round prec emax false m e).
Proof.
  unfold binary_round. destruct (shl_align _ _ _) as [mz ez].
  by apply binary_round_aux_not_negative.
Qed.

Lemma binary_round_at_least (m : positive) (e : Z) :
  emin < mag m e -> at_least (mag m e) (binary_round prec emax false m e).
Proof.
  intros Hmag.
  destruct (binary_round_spec prec emax Hprec0 false m e Hmag) as (m' & e' & -> & Hb & _).
  destruct (e' <=? emax - prec); cbn; lia || done.
Qed.

Lemma add_not_negative (a b : float) :
  not_negative a -> not_negative b -> not_negative (SFadd prec emax a b).
Proof.
  destruct a as [sa|[]| |[] m1 e1], b as [sb|[]| |[] m2 e2]; try done.
  - by destruct sa, sb.
  - intros _ _. destruct (add_finite m1 m2 e1 e2) as (m & e & -> & _).
    apply binary_round_not_negative.
Qed.

Lemma add_at_least_r (k : Z) (a b : float) :
  emin < k -> not_negative a -> at_least k b -> at_least k (SFadd prec emax a b).
Proof.
  intros Hk.
  destruct a as [sa|[]| |[] m1 e1], b as [sb|[]| |[] m2 e2]; try done.
  intros _ Hb. cbn [at_least] in Hb.
  destruct (add_finite m1 m2 e1 e2) as (m & e & -> & _ & H2).
  eapply at_least_mono; [|apply binary_round_at_least]; lia.
Qed.

Lemma add_at_least_l (k : Z) (a b : float) :
  emin < k -> at_least k a -> not_negative b -> at_least k (SFadd prec emax a b).
Proof.
  intros Hk.
  destruct a as [sa|[]| |[] m1 e1], b as [sb|[]| |[] m2 e2]; try done.
  intros Ha _. cbn [at_least] in Ha.
  destruct (add_finite m1 m2 e1 e2) as (m & e & -> & H1 & _).
  eapply at_least_mono; [|apply binary_round_at_least]; lia.
Qed.

(** A sum of terms that are not negative is not negative, and it is at
    least any one of them, whatever the order of the additions. *)
Lemma sums_to_not_negative (xs : list float) (s : float) :
  np.sums_to prec emax xs s -> Forall not_negative xs -> not_negative s.
Proof.
  induction 1 as [sign|x|xs ys a b _ IHa _ IHb|xs ys a Hp _ IH]; intros Hxs.
  - done.
  - by inversion Hxs.
  - apply Forall_app in Hxs as [Hx Hy]. apply add_not_negative; auto.
  - apply IH. by rewrite Hp.
Qed.

Lemma sums_to_at_least (k : Z) (xs : list float) (s : float) :
  emin < k ->
  np.sums_to prec emax xs s -> Forall not_negative xs ->
  Exists (at_least k) xs -> at_least k s.
Proof.
  intros Hk.
  induction 1 as [sign|x|xs ys a b Ha IHa Hb IHb|xs ys a Hp _ IH]; intros Hxs Hex.
  - by inversion Hex.
  - by inversion Hex as [? ? ?|? ? Hnil]; [|inversion Hnil].
  - apply Forall_app in Hxs as [Hx Hy].
    apply Exists_app in Hex as [Hex|Hex].
    + apply add_at_least_l; eauto using sums_to_not_negative.
    + apply add_at_least_r; eauto using sums_to_not_negative.
  - apply IH; by rewrite Hp.
Qed.

(** A sum of no terms is a zero. *)
Lemma sums_to_nil_zero (xs : list float) (s : float) :
  np.sums_to prec emax xs s -> xs = [] -> exists sign : bool, s = S754_zero sign.
Proof.
  induction 1 as [sign|x|xs ys a b _ IHa _ IHb|xs ys a Hp _ IH]; intros Hnil.
  - by exists sign.
  - done.
  - apply app_eq_nil in Hnil as [Hx Hy].
    destruct (IHa Hx) as [sa ->], (IHb Hy) as [sb ->].
    destruct sa, sb; by eexists.
  - subst ys. apply IH. by apply Permutation_nil_r in Hp.
Qed.

(** The sum from left to right is one of the sums. *)
Lemma sum_ltr_sums_to (xs : list float) :
  np.sums_to prec emax xs (np.sum_ltr prec emax xs).
Proof.
  unfold np.sum_ltr.
  assert (forall (pre : list float) (acc : float),
             np.sums_to prec emax pre acc ->
             np.sums_to prec emax (pre ++ xs) (foldl (SFadd prec emax) acc xs)) as H.
  { induction xs as [|x xs IH]; intros pre acc Hacc; cbn [foldl].
    - by rewrite app_nil_r.
    - replace (pre ++ x :: xs) with ((pre ++ [x]) ++ xs)
        by (by rewrite <- app_assoc).
      apply IH. apply np.sums_to_app; [done|constructor]. }
  apply (H [] Float.zero). constructor.
Qed.

(** ** Squares *)

Lemma square_not_negative (x : float) : not_negative (SFmul prec emax x x).
Proof.
  destruct x as [s|s| |s m e]; cbn [SFmul]; rewrite ?xorb_nilpotent; try done.
  by apply binary_round_aux_not_negative.
Qed.

Lemma square_big (x : float) : big x -> at_least 1 (SFmul prec emax x x).
Proof.
  destruct x as [s|s| |s m e]; cbn [SFmul big]; rewrite ?xorb_nilpotent; try done.
  intros Hx.
  assert (2 * mag m e - 1 <= mag (m * m) (e + e)) as Hsq.
  { unfold mag in *.
    pose proof (digits2_pos_bounds m) as [Hlo _].
    set (d := Zpos (digits2_pos m)) in *.
    pose proof (digits2_pos_ge (m * m) (2 * d - 1)) as Hge.
    replace (2 * d - 1 - 1) with ((d - 1) + (d - 1)) in Hge by lia.
    rewrite Z.pow_add_r in Hge by lia.
    assert (0 < 2 ^ (d - 1)) by (apply Z.pow_pos_nonneg; lia).
    rewrite Pos2Z.inj_mul in Hge.
    assert (2 ^ (d - 1) * 2 ^ (d - 1) <= Zpos m * Zpos m) by nia.
    lia. }
  eapply at_least_mono; [|apply binary_round_aux_at_least]; unfold SpecFloat.emin; lia.
Qed.

(** ** Integers as floats *)

(** A positive integer below [2^(emax-1)] is a finite positive float. *)
Lemma of_int_positive (n : Z) :
  0 < n < 2 ^ (emax - 1) ->
  exists (m : positive) (e : Z),
    Float.of_int prec emax n = S754_finite false m e
    /\ 1 <= mag m e <= emax
    /\ e = fexp (mag m e).
Proof.
  intros [Hn1 Hn2]. destruct n as [|p|p]; [lia| |lia].
  unfold Float.of_int. cbn [binary_normalize].
  assert (1 <= mag p 0 <= emax - 1) as Hp.
  { unfold mag. pose proof (digits2_pos_le p (emax - 1)). lia. }
  destruct (binary_round_spec prec emax Hprec0 false p 0) as (m & e & -> & Hb & Hcan).
  { unfold SpecFloat.emin. lia. }
  exists m, e.
  assert ((e <=? emax - prec) = true) as ->.
  { apply Z.leb_le. rewrite Hcan. unfold SpecFloat.fexp, SpecFloat.emin. lia. }
  repeat split; lia.
Qed.

Lemma one_finite :
  exists (m : positive) (e : Z),
    Float.one prec emax = S754_finite false m e
    /\ 1 <= mag m e /\ e = fexp (mag m e).
Proof.
  destruct (of_int_positive 1) as (m & e & H & Hb & Hcan).
  { split; [lia|]. apply Z.pow_gt_1; lia. }
  exists m, e. repeat split; [done|lia|done].
Qed.

(** ** The mean *)

Lemma div_at_least (k K : Z) (s : float) (mc : positive) (ec : Z) :
  emin < k - K -> mag mc ec <= K -> at_least k s ->
  at_least (k - K) (SFdiv prec emax s (S754_finite false mc ec)).
Proof.
  intros Hk Hc. destruct s as [|[]| |[] m e]; try done.
  cbn [at_least SFdiv xorb]. intros Hs.
  unfold SFdiv_core_binary. cbn [Zdigits2].
  set (D := Zpos (digits2_pos m) + e - (Zpos (digits2_pos mc) + ec)).
  assert (k - K <= D) as HD by (unfold mag in *; lia).
  set (e' := Z.min (fexp D) (e - ec)).
  pose proof (fexp_lt prec emax Hprec0 D ltac:(lia)) as Hf.
  set (s := e - ec - e').
  assert (0 <= s) as Hs0 by lia.
  set (m' := match s with Z0 => Zpos m | Zpos _ => Z.shiftl (Zpos m) s | Zneg _ => 0 end).
  assert (m' = Zpos m * 2 ^ s) as Hm'.
  { subst m'. destruct s as [|p|p] eqn:E; [lia| |lia].
    by rewrite Z.shiftl_mul_pow2. }
  pose proof (Z_div_mod m' (Zpos mc) ltac:(lia)) as Hdiv.
  destruct (Z.div_eucl m' (Zpos mc)) as [q r]. destruct Hdiv as [Hq Hr].
  pose proof (digits2_pos_bounds m) as [Hm1 _].
  pose proof (digits2_pos_bounds mc) as [_ Hc2].
  set (d1 := Zpos (digits2_pos m)) in *. set (d2 := Zpos (digits2_pos mc)) in *.
  assert (2 ^ (D - e' - 1) <= q) as Hq1.
  { assert (2 ^ (d1 - 1 + s) <= m') as Hm2.
    { rewrite Hm', Z.pow_add_r by lia.
      apply Z.mul_le_mono_nonneg_r; [apply Z.pow_nonneg|]; lia. }
    replace (d1 - 1 + s) with ((D - e' - 1) + d2) in Hm2 by lia.
    rewrite Z.pow_add_r in Hm2 by lia.
    assert (0 < 2 ^ (D - e' - 1)) by (apply Z.pow_pos_nonneg; lia).
    assert (0 < 2 ^ d2) by (apply Z.pow_pos_nonneg; lia).
    nia. }
  assert (0 < 2 ^ (D - e' - 1)) by (apply Z.pow_pos_nonneg; lia).
  destruct q as [|mq|mq]; [lia| |lia].
  assert (D <= mag mq e') as Hmq.
  { unfold mag. pose proof (digits2_pos_ge mq (D - e') Hq1). lia. }
  eapply at_least_mono; [|apply binary_round_aux_at_least]; lia.
Qed.

(** ** The square root *)

Lemma div2_bounds (x : Z) : 2 * Z.div2 x <= x <= 2 * Z.div2 x + 1.
Proof.
  rewrite Z.div2_div.
  pose proof (Z.div_mod x 2 ltac:(lia)). pose proof (Z.mod_pos_bound x 2 ltac:(lia)).
  lia.
Qed.

Lemma sqrt_at_least (k : Z) (x : float) :
  2 * emin < k -> at_least k x ->
  at_least (Z.div2 (k + 1)) (SFsqrt prec emax x).
Proof.
  intros Hk. destruct x as [|[]| |[] m e]; try done.
  cbn [at_least SFsqrt]. intros Hx.
  unfold SFsqrt_core_binary. cbn [Zdigits2].
  set (d := Zpos (digits2_pos m)) in *.
  set (e' := Z.min (fexp (Z.div2 (d + e + 1))) (Z.div2 e)).
  set (s := e - 2 * e').
  assert (0 <= s) as Hs0.
  { subst s e'. pose proof (div2_bounds e). lia. }
  set (m' := match s with Z0 => Zpos m | Zpos _ => Z.shiftl (Zpos m) s | Zneg _ => 0 end).
  assert (m' = Zpos m * 2 ^ s) as Hm'.
  { subst m'. destruct s as [|p|p] eqn:E; [lia| |lia].
    by rewrite Z.shiftl_mul_pow2. }
  pose proof (Z.sqrtrem_spec m') as Hsq.
  destruct (Z.sqrtrem m') as [q r].
  pose proof (digits2_pos_bounds m) as [Hm1 _]. fold d in Hm1.
  assert (0 < 2 ^ s) by (apply Z.pow_pos_nonneg; lia).
  destruct Hsq as [Hq Hr]; [nia|].
  set (t := Z.div2 (d - 1 + s)).
  assert (0 <= t /\ 2 * t <= d - 1 + s) as [Ht0 Ht].
  { subst t. pose proof (div2_bounds (d - 1 + s)). lia. }
  assert (2 ^ t <= q) as Hq1.
  { assert (2 ^ (d - 1 + s) <= m') as Hm2.
    { rewrite Hm', Z.pow_add_r by lia.
      apply Z.mul_le_mono_nonneg_r; [apply Z.pow_nonneg|]; lia. }
    assert (2 ^ (t + t) <= 2 ^ (d - 1 + s)) as Hpow by (apply Z.pow_le_mono_r; lia).
    rewrite Z.pow_add_r in Hpow by lia.
    assert (0 < 2 ^ t) by (apply Z.pow_pos_nonneg; lia).
    nia. }
  assert (0 < 2 ^ t) by (apply Z.pow_pos_nonneg; lia).
  destruct q as [|mq|mq]; [lia| |lia].
  assert (Z.div2 (k + 1) <= mag mq e') as Hmq.
  { unfold mag. pose proof (digits2_pos_ge mq (t + 1)) as Hge.
    replace (t + 1 - 1) with t in Hge by lia. specialize (Hge Hq1).
    subst t s. unfold mag in Hx. fold d in Hx.
    pose proof (div2_bounds (d - 1 + (e - 2 * e'))).
    pose proof (div2_bounds (k + 1)).
    lia. }
  assert (emin < Z.div2 (k + 1)).
  { pose proof (div2_bounds (k + 1)). unfold SpecFloat.emin in *. lia. }
  eapply at_least_mono; [|apply binary_round_aux_at_least]; lia.
Qed.

End Operations.

(** * [normalize_audio] *)

Section Clip.
Variables prec emax : Z.

Local Abbreviation one := (Float.one prec emax).

(** 1.0 is never a NaN and never negative, whatever the format. *)
Lemma one_not_negative : not_negative one /\ one <> S754_nan.
Proof.
  unfold Float.one, Float.of_int. cbn [binary_normalize]. unfold binary_round.
  destruct (shl_align _ _ _) as [mz ez]. split.
  - by apply binary_round_aux_not_negative.
  - by apply binary_round_aux_not_nan.
Qed.

Lemma compare_refl (x : float) : x <> S754_nan -> SFcompare x x = Some Eq.
Proof.
  destruct x as [s|[]| |[] m e]; try done; intros _; cbn [SFcompare].
  all: rewrite Z.compare_refl.
  all: change (Pos.compare_cont Eq m m) with (m ?= m)%positive.
  all: by rewrite Pos.compare_refl.
Qed.

Lemma opp_le_one : SFleb (SFopp one) one = true.
Proof.
  destruct one_not_negative as [H1 H2].
  by destruct one as [[]|[]| |[] m e].
Qed.

(** What [np.clip] returns for the bounds -1.0 and 1.0: a NaN for a NaN,
    and otherwise a number between the bounds. *)
Lemma clip_range (x : float) :
  let y := np.clip x (SFopp one) one in
  (x = S754_nan /\ y = S754_nan)
  \/ (x <> S754_nan /\ Float.in_range (SFopp one) one y = true).
Proof.
  cbv zeta.
  assert (x = S754_nan \/ x <> S754_nan) as [->|Hx] by (destruct x; auto).
  { by left. }
  right.
  split; [done|].
  destruct one_not_negative as [H1 H2].
  pose proof opp_le_one as Hle.
  assert (SFleb one one = true) as Hone
    by (unfold SFleb; by rewrite compare_refl).
  assert (SFleb (SFopp one) (SFopp one) = true) as Hopp.
  { unfold SFleb. rewrite compare_refl; [done|]. by destruct one. }
  unfold np.clip, np.maximum, np.minimum, Float.in_range.
  assert (Float.is_nan x = false) as -> by by destruct x.
  destruct (SFltb (SFopp one) x) eqn:Hlo.
  - assert (Float.is_nan x = false) as -> by by destruct x.
    assert (SFleb (SFopp one) x = true) as Hlo'.
    { unfold SFltb, SFleb in *. by destruct (SFcompare (SFopp one) x) as [[]|]. }
    destruct (SFltb x one) eqn:Hhi.
    + rewrite Hlo'. unfold SFltb, SFleb in *.
      by destruct (SFcompare x one) as [[]|].
    + by rewrite Hle, Hone.
  - assert (Float.is_nan (SFopp one) = false) as -> by by destruct one.
    destruct (SFltb (SFopp one) one) eqn:Hlt.
    + by rewrite Hopp, Hle.
    + by rewrite Hle, Hone.
Qed.

Hypothesis Hprec : 2 < prec.
Hypothesis Hemax : prec < emax.

Lemma valid_canonical (s : bool) (m : positive) (e : Z) :
  Float.valid prec emax (S754_finite s m e) -> e = fexp prec emax (mag m e).
Proof.
  unfold Float.valid, valid_binary, bounded, canonical_mantissa.
  intros [H _]%andb_prop. apply Z.eqb_eq in H. by unfold mag.
Qed.

Lemma lt_of_mag (m m1 : positive) (e e1 : Z) :
  e = fexp prec emax (mag m e) -> e1 = fexp prec emax (mag m1 e1) ->
  mag m e < mag m1 e1 ->
  (match e ?= e1 with Lt => Lt | Eq => Pos.compare_cont Eq m m1 | Gt => Gt end) = Lt.
Proof.
  intros He He1 Hmag.
  pose proof (fexp_mono prec emax (mag m e) (mag m1 e1) ltac:(lia)) as Hf.
  destruct (Z.compare_spec e e1) as [Heq|Hlt|Hgt]; [|done|lia].
  change (Pos.compare_cont Eq m m1) with (m ?= m1)%positive.
  apply Pos.compare_lt_iff.
  destruct (Pos.lt_total m m1) as [|[->|Hgt]]; [done|unfold mag in *; lia|].
  pose proof (digits2_pos_mono m1 m ltac:(lia)). unfold mag in *. lia.
Qed.

(** A number of the format that is below 1 in absolute value is left as
    it is. *)
Lemma clip_small (x : float) :
  Float.valid prec emax x -> ~ big x ->
  np.clip x (SFopp one) one = x.
Proof.
  destruct (one_finite prec emax Hprec Hemax) as (m1 & e1 & H1 & Hmag1 & Hcan1).
  intros Hv Hb. rewrite H1.
  destruct x as [s|s| |s m e]; [done|by destruct Hb|done|].
  apply valid_canonical in Hv. cbn [big] in Hb.
  pose proof (lt_of_mag m m1 e e1 Hv Hcan1 ltac:(lia)) as Hlt.
  unfold np.clip, np.maximum, np.minimum, SFltb. cbn [SFopp negb Float.is_nan SFcompare].
  destruct s.
  - rewrite Z.compare_antisym, Pos.compare_cont_antisym. cbn [CompOpp].
    destruct (e ?= e1); cbn [CompOpp]; try done.
    by rewrite Hlt.
  - cbn [Float.is_nan SFcompare]. by rewrite Hlt.
Qed.

End Clip.

Section NormalizeAudioClaims.
Variables prec emax : Z.
Variable np_sum : list float -> float.
Variable np_log10 : float -> float.
Variable np_power : float -> float -> float.

Local Abbreviation one := (Float.one prec emax).

(** C6, as the code has it.  The result is as long as the input, and each
    of its samples is a NaN or lies between -1.0 and 1.0. *)
Theorem normalize_audio_clipped (audio : list float) (target_level : float) :
  length (normalize_audio prec emax np_sum np_log10 np_power audio target_level)
    = length audio
  /\ Forall (fun y => y = Float.nan \/ Float.in_range (SFopp one) one y = true)
            (normalize_audio prec emax np_sum np_log10 np_power audio target_level).
Proof.
  unfold normalize_audio. cbv zeta.
  set (scaled := if SFltb _ _ then _ else audio).
  split.
  - rewrite length_fmap. subst scaled.
    destruct (SFltb _ _); [by rewrite length_fmap|done].
  - apply Forall_fmap, Forall_forall. intros x _.
    pose proof (clip_range prec emax x) as H. cbv zeta in H.
    destruct H as [[_ H]|[_ H]]; [left|right]; exact H.
Qed.

(** A NaN sample stays a NaN, with or without the gain. *)
Lemma normalize_audio_keeps_nan (audio : list float) (target_level : float) :
  Float.nan ∈ audio ->
  Float.nan ∈ normalize_audio prec emax np_sum np_log10 np_power audio target_level.
Proof.
  intros Hin. unfold normalize_audio. cbv zeta.
  apply list_elem_of_fmap. exists Float.nan. split; [done|].
  destruct (SFltb _ _); [|done].
  apply list_elem_of_fmap. by exists Float.nan.
Qed.

Hypothesis Hprec : 2 < prec.
Hypothesis Hemax : prec < emax.
Hypothesis Hsum : forall xs : list float, np.sums_to prec emax xs (np_sum xs).

(** A buffer with a sample of absolute value 1 or more has an RMS that is
    a NaN or positive. *)
Lemma rms_of_big (audio : list float) :
  Z.of_nat (length audio) < 2 ^ (emax - 1) ->
  Exists big audio ->
  at_least (Z.div2 (2 - emax)) (rms_of prec emax np_sum audio).
Proof.
  intros Hlen Hex. unfold rms_of, np.sqrt, np.mean, np.square.
  rewrite length_fmap.
  destruct (of_int_positive prec emax Hprec Hemax (Z.of_nat (length audio)))
    as (mc & ec & -> & Hc & _).
  { split; [|done]. destruct Hex; cbn [length]; lia. }
  replace (2 - emax) with ((1 - emax) + 1) by lia.
  apply sqrt_at_least; [done|unfold emin; lia|].
  apply div_at_least; [done|unfold emin; lia|lia|].
  apply (sums_to_at_least prec emax Hprec 1 (np.square prec emax audio));
    [unfold emin; lia|apply Hsum| |].
  - apply Forall_fmap, Forall_forall. intros x _. apply square_not_negative.
  - apply Exists_fmap. eapply Exists_impl; [exact Hex|].
    intros x Hx. by apply square_big.
Qed.

(** The RMS of the empty buffer is a NaN, not a zero. *)
Lemma rms_of_nil : rms_of prec emax np_sum [] = Float.nan.
Proof.
  unfold rms_of, np.sqrt, np.mean, np.square. cbn [fmap list_fmap length].
  by destruct (sums_to_nil_zero prec emax [] _ (Hsum []) eq_refl) as [sign ->].
Qed.

(** C7.  A buffer whose RMS is zero is returned as it is: no gain is
    computed, the mean divides by a count that is not zero, and nothing is
    raised ([normalize_audio] is a total function).  The format is any with
    [2 < prec < emax]; the samples are numbers of the format, fewer than
    [2^(emax-1)] of them; [np_sum] adds them up in an order of its own. *)
Theorem normalize_audio_silence (audio : list float) (target_level : float) :
  Forall (Float.valid prec emax) audio ->
  Z.of_nat (length audio) < 2 ^ (emax - 1) ->
  SFeqb (rms_of prec emax np_sum audio) Float.zero = true ->
  normalize_audio prec emax np_sum np_log10 np_power audio target_level = audio
  /\ 0 < Z.of_nat (length audio).
Proof.
  intros Hvalid Hlen Hrms. split; cycle 1.
  { destruct audio; [by rewrite rms_of_nil in Hrms|cbn [length]; lia]. }
  unfold normalize_audio. cbv zeta.
  assert (SFltb (Float.of_int prec emax 0) (rms_of prec emax np_sum audio) = false) as ->.
  { revert Hrms. unfold SFeqb, SFltb.
    by destruct (rms_of prec emax np_sum audio) as [[]|[]| |[] m e]. }
  assert (Forall (fun x => ~ big x) audio) as Hsmall.
  { apply Forall_forall. intros x Hx Hbig.
    assert (Exists big audio) as Hex by (apply Exists_exists; eauto).
    pose proof (rms_of_big audio Hlen Hex) as Hat.
    revert Hrms Hat. unfold SFeqb.
    by destruct (rms_of prec emax np_sum audio) as [[]|[]| |[] m e]. }
  clear Hrms Hlen.
  induction audio as [|x audio IH]; [done|].
  apply Forall_cons in Hvalid as [Hx Hvalid].
  apply Forall_cons in Hsmall as [Hs Hsmall].
  cbn [fmap list_fmap]. f_equal; [|by apply IH].
  by apply clip_small.
Qed.

End NormalizeAudioClaims.

(** A zero, a negative zero and a sample so small that its square is zero,
    in [float64], summed from left to right: the RMS is zero and the buffer
    comes back unchanged. *)
Lemma normalize_audio_silence_witness :
  normalize_audio 53 1024 (np.sum_ltr 53 1024) (fun x => x) (fun _ y => y)
    [Float.zero; S754_zero true; f64_tiny] f64_minus_one =
  [Float.zero; S754_zero true; f64_tiny].
Proof.
  apply (normalize_audio_silence 53 1024 (np.sum_ltr 53 1024) (fun x => x) (fun _ y => y));
    [lia|lia|apply sum_ltr_sums_to| |done|done].
  repeat constructor.
Defined.

(** C6 fails on a NaN: in [float64], whatever the sum, the logarithm, the
    power and the level, the buffer of one NaN comes back as one NaN, and a
    NaN is not between -1.0 and 1.0. *)
Lemma normalize_audio_nan :
  (forall (np_sum : list float -> float) (np_log10 : float -> float)
          (np_power : float -> float -> float) (target_level : float),
      normalize_audio 53 1024 np_sum np_log10 np_power [Float.nan] target_level
      = [Float.nan])
  /\ Float.in_range f64_minus_one f64_one Float.nan = false
  /\ Float.one 53 1024 = f64_one
  /\ SFopp (Float.one 53 1024) = f64_minus_one.
Proof.
  split; [|done].
  intros np_sum np_log10 np_power target_level.
  unfold normalize_audio. cbv zeta. by destruct (SFltb _ _).
Qed.

(** Samples within the bounds give a NaN too when the level is a NaN and the
    power of a NaN is a NaN: the gain is a NaN. *)
Lemma normalize_audio_nan_level (np_log10 : float -> float)
    (np_power : float -> float -> float) :
  (forall base : float, np_power base Float.nan = Float.nan) ->
  normalize_audio 53 1024 (np.sum_ltr 53 1024) np_log10 np_power
    [f64_minus_half; f64_one] Float.nan
  = [Float.nan; Float.nan].
Proof.
  intros Hpow. unfold normalize_audio. cbv zeta.
  assert (SFltb (Float.of_int 53 1024 0)
            (rms_of 53 1024 (np.sum_ltr 53 1024) [f64_minus_half; f64_one]) = true)
    as -> by done.
  assert (forall x : float, SFsub 53 1024 Float.nan x = Float.nan) as -> by done.
  change (SFdiv 53 1024 Float.nan (Float.of_int 53 1024 20)) with Float.nan.
  by rewrite Hpow.
Qed.

(** * [generate_silence] *)

Section GenerateSilence.

Lemma trunc_floor (x : float) :
  SFleb Float.zero x = true -> x <> S754_infinity false ->
  exists n : Z, Float.trunc x = Ok n /\ Float.floor x = Some n /\ 0 <= n.
Proof.
  destruct x as [s|[]| |[] m e]; try done; intros _ _.
  - by exists 0.
  - exists (Z.shiftl (Zpos m) e). repeat split. by apply Z.shiftl_nonneg.
Qed.

(** [np.zeros] by the length it is given. *)
Lemma zeros_cases {mem : Memory} (n : Z) :
  np.zeros n =
    if n <? - 2 ^ 63 then Raise (ValueError "Maximum allowed dimension exceeded")
    else if n <? 0 then Raise (ValueError "negative dimensions are not allowed")
    else if n <? 2 ^ 60 then
      if can_allocate n then Ok (replicate (Z.to_nat n) Float.zero)
      else Raise MemoryError
    else if n <? 2 ^ 63 then
      Raise (ValueError "array is too big; `arr.size * arr.dtype.itemsize` is larger than the maximum possible size.")
    else Raise (ValueError "Maximum allowed dimension exceeded").
Proof.
  unfold np.zeros, np.max_intp, np.itemsize.
  change (2 ^ 63) with 9223372036854775808.
  change (2 ^ 60) with 1152921504606846976.
  repeat match goal with
         | |- context [?a <? ?b] =>
             destruct (Z.ltb_spec a b); cbn [orb]; try lia
         end; reflexivity.
Qed.

(** C5, as the code has it.  When the product [duration * sr], as a float,
    is finite and not negative and its integer part [n] is below [2^60],
    then, if there is memory for [n] samples, the buffer has
    [n = floor (duration * sr)] samples, all of them 0.0, and if there
    is none, NumPy raises [MemoryError]; from [2^60] on NumPy refuses the
    length and [generate_silence] raises [ValueError].  One second at
    48000 Hz has 48000 samples. *)
Theorem generate_silence_length :
  (forall (mem : Memory) (duration : float) (sr : Z) (rate : float) (n : Z),
      Float.float_of_int 53 1024 sr = Ok rate ->
      let product := SFmul 53 1024 duration rate in
      SFleb Float.zero product = true ->
      Float.floor product = Some n ->
      (n < 2 ^ 60 -> can_allocate n = true ->
       exists buffer : list float,
         generate_silence duration sr = Ok buffer
         /\ Z.of_nat (length buffer) = n
         /\ Forall (fun sample => sample = Float.zero) buffer)
      /\ (n < 2 ^ 60 -> can_allocate n = false ->
          generate_silence duration sr = Raise MemoryError)
      /\ (2 ^ 60 <= n ->
          exists msg : string, generate_silence duration sr = Raise (ValueError msg)))
  /\ (forall mem : Memory,
         can_allocate 48000 = true ->
         generate_silence f64_one 48000 = Ok (replicate (Z.to_nat 48000) Float.zero)).
Proof.
  split.
  - intros mem duration sr rate n Hrate product Hpos Hfloor.
    assert (product <> S754_infinity false) as Hfin by (by intros Hinf; rewrite Hinf in Hfloor).
    destruct (trunc_floor product Hpos Hfin) as (n' & Ht & Hf & Hn).
    assert (n' = n) as -> by congruence.
    unfold generate_silence. rewrite Hrate. cbn [mbind result_bind].
    fold product. rewrite Ht. cbn [mbind result_bind]. rewrite zeros_cases.
    assert (0 < 2 ^ 63 /\ 2 ^ 60 < 2 ^ 63) as [H63 H60] by (split; reflexivity).
    assert ((n <? - 2 ^ 63) = false) as -> by lia.
    assert ((n <? 0) = false) as -> by lia.
    split; [|split].
    + intros Hlt Hmem. assert ((n <? 2 ^ 60) = true) as -> by lia. rewrite Hmem.
      exists (replicate (Z.to_nat n) Float.zero).
      rewrite length_replicate, Z2Nat.id by done.
      repeat split. apply Forall_replicate. done.
    + intros Hlt Hmem. assert ((n <? 2 ^ 60) = true) as -> by lia. by rewrite Hmem.
    + intros Hge. assert ((n <? 2 ^ 60) = false) as -> by lia.
      destruct (n <? 2 ^ 63); by eexists.
  - intros mem Hmem. unfold generate_silence.
    assert (Float.float_of_int 53 1024 48000 =
              Ok (S754_finite false 6597069766656000 (-37))) as -> by done.
    cbn [mbind result_bind].
    assert (Float.trunc (SFmul 53 1024 f64_one (S754_finite false 6597069766656000 (-37)))
            = Ok 48000) as -> by done.
    cbn [mbind result_bind]. rewrite zeros_cases, Hmem. done.
Qed.

(** 0.75 s at 4 Hz with room for 3 samples; [2^60] s at 1 Hz. *)
Lemma generate_silence_length_witness :
  (exists buffer : list float,
      generate_silence (mem := {| can_allocate := fun n => n <=? 3 |})
        (S754_finite false 6755399441055744 (-53)) 4 = Ok buffer
      /\ Z.of_nat (length buffer) = 3
      /\ Forall (fun sample => sample = Float.zero) buffer)
  /\ generate_silence (mem := {| can_allocate := fun n => n <=? 3 |})
       f64_one 48000 = Raise MemoryError
  /\ (exists msg : string,
         generate_silence (S754_finite false 4503599627370496 8) 1
         = Raise (ValueError msg)).
Proof.
  split; [|split].
  - apply (proj1 (proj1 generate_silence_length {| can_allocate := fun n => n <=? 3 |}
             (S754_finite false 6755399441055744 (-53)) 4
             (S754_finite false 4503599627370496 (-50)) 3
             eq_refl eq_refl eq_refl)); reflexivity.
  - apply (proj1 (proj2 (proj1 generate_silence_length
             {| can_allocate := fun n => n <=? 3 |} f64_one 48000
             (S754_finite false 6597069766656000 (-37)) 48000
             eq_refl eq_refl eq_refl))); reflexivity.
  - apply (proj2 (proj2 (proj1 generate_silence_length unbounded
             (S754_finite false 4503599627370496 8) 1
             (S754_finite false 4503599627370496 (-52)) (2 ^ 60)
             eq_refl eq_refl eq_refl))).
    apply Z.le_refl.
Defined.

(** C5 fails for a negative duration: NumPy refuses a negative length. *)
Lemma generate_silence_negative :
  generate_silence f64_minus_one 48000 =
    Raise (ValueError "negative dimensions are not allowed").
Proof. done. Qed.

(** Between -1 and 0 the product is cut to 0, not floored to -1. *)
Lemma generate_silence_negative_fraction :
  generate_silence f64_minus_half 1 = Ok []
  /\ Float.floor (SFmul 53 1024 f64_minus_half f64_one) = Some (-1).
Proof. done. Qed.

End GenerateSilence.

(** * [synthesize] *)

Section SynthesizeClaims.
Variable str_float : float -> string.


End SynthesizeClaims.

(** * More about [note_to_midi] *)

Section NoteNames.
Import Py PyFacts.
Context {py : Interpreter}.

Lemma offset_has_spelling (offset : Z) :
  0 <= offset <= 11 -> exists spelling, note_map !! spelling = Some offset.
Proof.
  intros H.
  assert (offset ∈ seqZ 0 12) as Hin by (apply elem_of_seqZ; lia).
  cbn in Hin.
  repeat (apply elem_of_cons in Hin as [->|Hin];
          [first [by exists "C"|by exists "C#"|by exists "D"|by exists "D#"
                 |by exists "E"|by exists "F"|by exists "F#"|by exists "G"
                 |by exists "G#"|by exists "A"|by exists "A#"|by exists "B"]|]).
  by apply elem_of_nil in Hin.
Qed.

Lemma octave_has_digit (octave : Z) :
  0 <= octave <= 9 -> exists o, decimal_value o = Some octave.
Proof.
  intros H.
  assert (octave ∈ seqZ 0 10) as Hin by (apply elem_of_seqZ; lia).
  cbn in Hin.
  repeat (apply elem_of_cons in Hin as [->|Hin];
          [first [by exists "0"%char|by exists "1"%char|by exists "2"%char
                 |by exists "3"%char|by exists "4"%char|by exists "5"%char
                 |by exists "6"%char|by exists "7"%char|by exists "8"%char
                 |by exists "9"%char]|]).
  by apply elem_of_nil in Hin.
Qed.

Lemma decimal_value_chars (o : ascii) (d : Z) :
  decimal_value o = Some d ->
  o ∈ ["0"; "1"; "2"; "3"; "4"; "5"; "6"; "7"; "8"; "9"]%char.
Proof.
  destruct o as [[] [] [] [] [] [] [] []]; try done; intros _;
    repeat first [by apply list_elem_of_here | apply list_elem_of_further].
Qed.

(** A key of the table starts with one of the capitals A..G. *)
Lemma note_map_capital (spelling : string) (offset : Z) :
  note_map !! spelling = Some offset ->
  exists (c : ascii) (rest : string),
    spelling = String c rest /\ between 65 71 (ord c) = true.
Proof.
  intros H. apply note_map_cases in H.
  repeat (apply elem_of_cons in H as [H|H]; [injection H as -> ->; by eexists _, _|]).
  by apply elem_of_nil in H.
Qed.

Lemma lower_char_not_capital (c : ascii) : between 65 71 (ord (lower_char c)) = false.
Proof. by destruct c as [[] [] [] [] [] [] [] []]. Qed.

End NoteNames.

(** X1.  The number tells the pitch class and the octave: a name that
    converts to [midi] is a spelling of offset [midi mod 12] followed by
    one character of decimal value [midi / 12 - 1].  So two names with
    the same number have spellings of the same offset and octave
    characters of the same value; the spellings can differ (C# and Db),
    and so can the characters where several have one value, which is
    beyond code point 255. *)
Theorem note_to_midi_decode {py : Interpreter} (note_name : string) (midi : Z) :
  note_to_midi note_name = Ok midi ->
  exists (spelling : string) (o : ascii),
    note_name = spelling +:+ String o ""
    /\ note_map !! spelling = Some (midi mod 12)
    /\ Py.decimal_value o = Some (midi / 12 - 1).
Proof.
  intros (spelling & o & offset & octave & -> & Hm & Ho & ->)%note_to_midi_inv.
  exists spelling, o. split; [done|].
  pose proof (note_map_offset_range _ _ Hm).
  replace ((offset + (octave + 1) * 12) mod 12) with offset
    by (rewrite Z.mod_add, Z.mod_small; lia).
  replace ((offset + (octave + 1) * 12) / 12 - 1) with octave
    by (rewrite Z.div_add, Z.div_small; lia).
  done.
Qed.

Lemma note_to_midi_decode_witness :
  exists (spelling : string) (o : ascii),
    "Db4" = spelling +:+ String o ""
    /\ note_map !! spelling = Some (61 mod 12)
    /\ Py.decimal_value o = Some (61 / 12 - 1).
Proof. exact (note_to_midi_decode "Db4" 61 eq_refl). Defined.

(** X2.  The numbers that [note_to_midi] returns are exactly 12..131:
    each of them has a name, and no other number has one. *)
Theorem note_to_midi_image {py : Interpreter} (midi : Z) :
  (exists note_name : string, note_to_midi note_name = Ok midi) <-> 12 <= midi <= 131.
Proof.
  split.
  - intros [note_name (spelling & o & offset & octave & _ & Hm & Ho & ->)%note_to_midi_inv].
    apply note_map_offset_range in Hm. apply PyFacts.decimal_value_range in Ho. lia.
  - intros H.
    pose proof (Z.mod_pos_bound midi 12 ltac:(lia)) as Hmod.
    pose proof (Z.div_mod midi 12 ltac:(lia)) as Hdiv.
    destruct (offset_has_spelling (midi mod 12) ltac:(lia)) as [spelling Hs].
    destruct (octave_has_digit (midi / 12 - 1) ltac:(lia)) as [o Ho].
    exists (spelling +:+ String o "").
    rewrite note_to_midi_snoc by eauto using note_map_nonempty.
    rewrite Ho, Hs. f_equal. lia.
Qed.

Lemma note_to_midi_image_witness :
  exists note_name : string, note_to_midi note_name = Ok 127.
Proof. apply (proj2 (note_to_midi_image 127)). lia. Defined.

(** X3.  Note names are case-sensitive: no name in lower case converts,
    whatever it is ("c4" and "bb3" raise, "C4" and "Bb3" do not). *)
Theorem note_to_midi_lower {py : Interpreter} :
  (forall note_name : string,
      exists e : exn, note_to_midi (Py.lower note_name) = Raise e)
  /\ note_to_midi "bb3" = Raise (InvalidNote "bb")
  /\ note_to_midi "Bb3" = Ok 58.
Proof.
  split; [|done]. intros note_name.
  destruct (note_to_midi (Py.lower note_name)) as [midi|e] eqn:H; [|by exists e].
  exfalso.
  apply note_to_midi_inv in H as (spelling & o & offset & octave & Hname & Hm & _).
  apply note_map_capital in Hm as (c & rest & -> & Hc).
  destruct note_name as [|a s]; [done|].
  cbn [Py.lower] in Hname. rewrite PyFacts.app_cons in Hname. injection Hname as Ha _.
  by rewrite <- Ha, lower_char_not_capital in Hc.
Qed.

(** * More about [parse_notes] *)

Section Words.
Import Py PyFacts.
Context {py : Interpreter}.



Lemma split_nil_blank (s : string) : split s = [] <-> is_blank s.
Proof.
  split; [|apply split_from_blank].
  destruct (words_exist s) as (lead & ws & Hl & Hws & ->).
  rewrite split_join_words by done.
  destruct ws; [|done]. intros _. cbn [join_words]. by rewrite app_empty_r.
Qed.

Lemma split_from_app (word : option string) (a : string) (c : ascii) (s : string) :
  isspace c = true ->
  split_from word (a +:+ String c s) = split_from word a ++ split_from None s.
Proof.
  intros Hc. revert word. induction a as [|x a IH]; intros word.
  - change ("" +:+ String c s) with (String c s).
    cbn [split_from]. rewrite Hc. by destruct word.
  - rewrite app_cons. cbn [split_from]. destruct (isspace x).
    + rewrite IH. by destruct word.
    + apply IH.
Qed.

(** The words of two texts with a blank between them. *)
Lemma split_app (a sep b : string) :
  is_blank sep -> sep <> "" ->
  split (a +:+ sep +:+ b) = split a ++ split b.
Proof.
  intros Hb Hne. destruct sep as [|c sep]; [done|].
  unfold is_blank in Hb. cbn [all_chars] in Hb. apply andb_prop in Hb as [Hc Hb].
  unfold split. rewrite app_cons, split_from_app by done.
  by rewrite split_from_skip.
Qed.

Lemma parse_loop_acc (notes : list string) (parsed : list parsed_note) :
  parse_loop notes parsed = tokens ← parse_loop notes []; Ok (parsed ++ tokens).
Proof.
  revert parsed. induction notes as [|w notes IH]; intros parsed.
  - cbn. by rewrite app_nil_r.
  - cbn [parse_loop]. destruct (parse_note w) as [t|e]; [|done].
    cbn [mbind result_bind]. rewrite IH, (IH ([] ++ [t])).
    destruct (parse_loop notes []) as [ts|e]; [|done].
    cbn. by rewrite <- app_assoc.
Qed.

Lemma parse_loop_app (xs ys : list string) (parsed : list parsed_note) :
  parse_loop (xs ++ ys) parsed = mid ← parse_loop xs parsed; parse_loop ys mid.
Proof.
  revert parsed. induction xs as [|w xs IH]; intros parsed; [done|].
  cbn [app parse_loop]. destruct (parse_note w) as [t|e]; [|done].
  cbn [mbind result_bind]. apply IH.
Qed.

Lemma parse_notes_blank (notes_str : string) :
  parse_notes notes_str = Ok [] <-> is_blank notes_str.
Proof.
  rewrite <- split_nil_blank.
  pose proof (parse_notes_spec notes_str) as Hspec.
  destruct (List.find _ _) as [w|] eqn:Hf.
  - destruct Hspec as [e He]. rewrite He. split; [done|].
    intros Hs. by rewrite Hs in Hf.
  - rewrite Hspec. split.
    + intros [= H]. by apply map_eq_nil in H.
    + by intros ->.
Qed.



End Words.

(** X4.  A name that [note_to_midi] converts goes through [parse_notes]
    unchanged: the text made of that name gives the one token that carries
    it. *)
Theorem parse_notes_valid_name {py : Interpreter} (note_name : string) (midi : Z) :
  note_to_midi note_name = Ok midi -> parse_notes note_name = Ok [Name note_name].
Proof.
  intros (spelling & o & offset & octave & -> & Hm & Ho & _)%note_to_midi_inv.
  apply decimal_value_chars in Ho. apply note_map_cases in Hm.
  repeat (apply elem_of_cons in Hm as [Hm|Hm];
          [injection Hm as -> ->;
           repeat (apply elem_of_cons in Ho as [->|Ho]; [reflexivity|]);
           by apply elem_of_nil in Ho|]).
  by apply elem_of_nil in Hm.
Qed.

Lemma parse_notes_valid_name_witness : parse_notes "F#5" = Ok [Name "F#5"].
Proof. exact (parse_notes_valid_name "F#5" 78 eq_refl). Defined.



(** X6.  Parsing two texts joined by blanks is parsing the first, then the
    second: the tokens of both in order, or the first error met. *)
Theorem parse_notes_app {py : Interpreter} (a sep b : string) :
  is_blank sep -> sep <> "" ->
  parse_notes (a +:+ sep +:+ b) =
    ta ← parse_notes a; tb ← parse_notes b; Ok (ta ++ tb).
Proof.
  intros Hb Hne. unfold parse_notes. cbv zeta.
  rewrite !split_strip, split_app, parse_loop_app by done.
  destruct (parse_loop (Py.split a) []) as [ta|e]; [|done].
  cbn [mbind result_bind]. apply parse_loop_acc.
Qed.

Lemma parse_notes_app_witness :
  parse_notes ("C4 rest" +:+ " 	" +:+ "60") =
    ta ← parse_notes "C4 rest"; tb ← parse_notes "60"; Ok (ta ++ tb).
Proof. apply (parse_notes_app "C4 rest" " 	" "60"); [reflexivity|discriminate]. Defined.

(** X7.  [parse_notes] returns the empty list for the texts made of blanks
    only, the empty text among them, and for no other text. *)
Theorem parse_notes_nil {py : Interpreter} (notes_str : string) :
  parse_notes notes_str = Ok [] <-> is_blank notes_str.
Proof. apply parse_notes_blank. Qed.

Lemma parse_notes_nil_witness : parse_notes " 	 " = Ok [].
Proof. apply (proj2 (parse_notes_nil " 	 ")). reflexivity. Defined.

(** * More about [generate_silence] *)

Section MoreFloats.

Lemma of_int_not_nan (prec emax n : Z) :
  0 < prec -> Float.of_int prec emax n <> S754_nan.
Proof.
  intros Hprec. unfold Float.of_int.
  destruct n as [|p|p]; cbn [binary_normalize]; [done| |];
    unfold binary_round; destruct (shl_align _ _ _) as [mz ez];
    by apply binary_round_aux_not_nan.
Qed.

(** The integer part of [m * 2^e] is not zero exactly when the leading bit
    is at position 1 or above. *)
Lemma shiftl_positive (m : positive) (e : Z) :
  0 < Z.shiftl (Zpos m) e <-> 1 <= mag m e.
Proof.
  unfold mag. pose proof (digits2_pos_bounds m) as [Hlo Hhi].
  set (d := Zpos (digits2_pos m)) in *.
  assert (0 < d) by (subst d; lia).
  destruct (Z.le_gt_cases 0 e) as [He|He].
  - rewrite Z.shiftl_mul_pow2 by done.
    assert (0 < 2 ^ e) by (apply Z.pow_pos_nonneg; lia). split; [lia|nia].
  - rewrite Z.shiftl_div_pow2 by lia.
    assert (0 < 2 ^ (- e)) by (apply Z.pow_pos_nonneg; lia).
    split.
    + intros Hq.
      destruct (Z.le_gt_cases 1 (d + e)) as [|Hlt]; [done|].
      assert (2 ^ d <= 2 ^ (- e)) by (apply Z.pow_le_mono_r; lia).
      rewrite Z.div_small in Hq by lia. lia.
    + intros Hd.
      assert (2 ^ (- e) <= 2 ^ (d - 1)) by (apply Z.pow_le_mono_r; lia).
      apply Z.div_str_pos. lia.
Qed.

End MoreFloats.

(** X8.  A duration that is a NaN or an infinity makes [generate_silence]
    raise, whatever the sample rate: the product is a NaN or an infinity,
    which [int] refuses, unless the rate itself is too large for a float. *)
Theorem generate_silence_not_a_number {mem : Memory} (duration : float) (sr : Z) :
  match duration with S754_nan | S754_infinity _ => True | _ => False end ->
  exists e : exn, generate_silence duration sr = Raise e.
Proof.
  intros Hd. unfold generate_silence, Float.float_of_int.
  pose proof (of_int_not_nan 53 1024 sr ltac:(lia)) as Hn.
  destruct (Float.of_int 53 1024 sr) as [s|s| |s m e]; [|by eexists|done|];
    destruct duration as [sd|sd| |sd md ed]; try done; by eexists.
Qed.

Lemma generate_silence_not_a_number_witness :
  exists e : exn, generate_silence (S754_infinity false) 0 = Raise e.
Proof. exact (generate_silence_not_a_number (S754_infinity false) 0 I). Defined.

(** X9.  A negative product [duration * sr], finite, with the integer
    part [-k]: between -1 and 0 ([k = 0]) the buffer is empty, if there
    is memory for an empty array; from -1 down to [-2^63] NumPy refuses
    the negative length; below [-2^63] the length is no index and NumPy
    refuses it as too large.  In both of these cases [generate_silence]
    raises a [ValueError], whatever the memory. *)
Theorem generate_silence_negative_product {mem : Memory} (duration : float) (sr : Z)
    (rate : float) (m : positive) (e : Z) :
  Float.float_of_int 53 1024 sr = Ok rate ->
  SFmul 53 1024 duration rate = S754_finite true m e ->
  let k := Z.shiftl (Zpos m) e in
  (k = 0 <-> mag m e < 1)
  /\ generate_silence duration sr =
       if k =? 0 then (if can_allocate 0 then Ok [] else Raise MemoryError)
       else if k <=? 2 ^ 63
       then Raise (ValueError "negative dimensions are not allowed")
       else Raise (ValueError "Maximum allowed dimension exceeded").
Proof.
  intros Hrate Hp k.
  pose proof (shiftl_positive m e) as Hs.
  pose proof (Z.shiftl_nonneg (Zpos m) e) as Hnn. fold k in Hs, Hnn.
  split; [lia|].
  unfold generate_silence. rewrite Hrate. cbn [mbind result_bind].
  rewrite Hp. cbn [Float.trunc cond_Zopp mbind result_bind]. fold k.
  rewrite zeros_cases.
  assert (0 < 2 ^ 60 /\ 0 < 2 ^ 63) as [H60 H63] by (split; reflexivity).
  destruct (Z.eqb_spec k 0) as [->|Hk].
  { assert ((- 0 <? - 2 ^ 63) = false) as -> by lia.
    assert ((- 0 <? 0) = false) as -> by lia.
    assert ((- 0 <? 2 ^ 60) = true) as -> by lia. done. }
  destruct (Z.leb_spec k (2 ^ 63)) as [Hle|Hgt].
  - assert ((- k <? - 2 ^ 63) = false) as -> by lia.
    assert ((- k <? 0) = true) as -> by lia. done.
  - assert ((- k <? - 2 ^ 63) = true) as -> by lia. done.
Qed.

Lemma generate_silence_negative_product_witness :
  generate_silence (mem := {| can_allocate := fun _ => false |}) f64_minus_half 3 =
    Raise (ValueError "negative dimensions are not allowed")
  /\ generate_silence (S754_finite true 4503599627370496 12) 1 =
       Raise (ValueError "Maximum allowed dimension exceeded").
Proof.
  split.
  - exact (proj2 (generate_silence_negative_product
                    (mem := {| can_allocate := fun _ => false |}) f64_minus_half 3
                    (S754_finite false 6755399441055744 (-51)) 6755399441055744 (-52)
                    eq_refl eq_refl)).
  - exact (proj2 (generate_silence_negative_product
                    (S754_finite true 4503599627370496 12) 1
                    (S754_finite false 4503599627370496 (-52)) 4503599627370496 12
                    eq_refl eq_refl)).
Defined.

(** * More about [normalize_audio] *)

Section MoreNormalize.
Variables prec emax : Z.
Variable np_sum : list float -> float.
Variable np_log10 : float -> float.
Variable np_power : float -> float -> float.

Local Abbreviation one := (Float.one prec emax).
Local Abbreviation clip1 := (fun x : float => np.clip x (SFopp one) one).

(** Without a positive RMS the samples are clipped and nothing else. *)
Lemma normalize_audio_no_gain (audio : list float) (target_level : float) :
  SFltb (Float.of_int prec emax 0) (rms_of prec emax np_sum audio) = false ->
  normalize_audio prec emax np_sum np_log10 np_power audio target_level
  = clip1 <$> audio.
Proof. intros H. unfold normalize_audio. cbv zeta. by rewrite H. Qed.

Lemma sums_to_nan (xs : list float) (s : float) :
  np.sums_to prec emax xs s -> Float.nan ∈ xs -> s = Float.nan.
Proof.
  induction 1 as [sign|x|xs ys a b _ IHa _ IHb|xs ys a Hp _ IH]; intros Hin.
  - by apply elem_of_nil in Hin.
  - by apply list_elem_of_singleton in Hin.
  - apply elem_of_app in Hin as [Hin|Hin].
    + by rewrite (IHa Hin).
    + rewrite (IHb Hin). by destruct a.
  - apply IH. by rewrite Hp.
Qed.

Lemma sums_to_zeros (xs : list float) (s : float) :
  np.sums_to prec emax xs s ->
  Forall (fun x => exists sign, x = S754_zero sign) xs ->
  exists sign, s = S754_zero sign.
Proof.
  induction 1 as [sign|x|xs ys a b _ IHa _ IHb|xs ys a Hp _ IH]; intros Hxs.
  - by exists sign.
  - by inversion Hxs.
  - apply Forall_app in Hxs as [Hx Hy].
    destruct (IHa Hx) as [sa ->], (IHb Hy) as [sb ->].
    destruct sa, sb; by eexists.
  - apply IH. by rewrite Hp.
Qed.

Hypothesis Hsum : forall xs : list float, np.sums_to prec emax xs (np_sum xs).

Lemma rms_of_nan (audio : list float) :
  Float.nan ∈ audio -> rms_of prec emax np_sum audio = Float.nan.
Proof.
  intros Hin. unfold rms_of, np.sqrt, np.mean.
  rewrite (sums_to_nan _ _ (Hsum _)); [done|].
  unfold np.square. apply list_elem_of_fmap. by exists Float.nan.
Qed.

(** X10.  One NaN among the samples switches the normalisation off: the
    RMS is a NaN, no gain is applied, and every sample is clipped to
    -1.0..1.0 and nothing else, whatever the level asked for. *)
Theorem normalize_audio_nan_no_gain (audio : list float) (target_level : float) :
  Float.nan ∈ audio ->
  normalize_audio prec emax np_sum np_log10 np_power audio target_level
  = clip1 <$> audio.
Proof.
  intros Hin. apply normalize_audio_no_gain. rewrite rms_of_nan by done.
  unfold SFltb. by destruct (Float.of_int prec emax 0).
Qed.

Hypothesis Hprec : 2 < prec.
Hypothesis Hemax : prec < emax.

Lemma rms_of_zeros (audio : list float) :
  Forall (fun x => exists sign, x = S754_zero sign) audio ->
  SFltb (Float.of_int prec emax 0) (rms_of prec emax np_sum audio) = false.
Proof.
  intros Hz. unfold rms_of, np.sqrt, np.mean.
  destruct (sums_to_zeros _ _ (Hsum (np.square prec emax audio))) as [sign ->].
  { unfold np.square. apply Forall_fmap. eapply Forall_impl; [exact Hz|].
    intros x [sx ->]. cbn. by eexists. }
  pose proof (of_int_not_nan prec emax (Z.of_nat (length (np.square prec emax audio)))
                ltac:(lia)) as Hn.
  destruct (Float.of_int prec emax _) as [s|s| |s m e]; [| |done|];
    cbn [SFdiv SFsqrt]; by destruct sign, s.
Qed.

(** A buffer of zeros, of any length, comes back as it is. *)
Lemma normalize_audio_zeros (audio : list float) (target_level : float) :
  Forall (fun x => exists sign, x = S754_zero sign) audio ->
  normalize_audio prec emax np_sum np_log10 np_power audio target_level = audio.
Proof.
  intros Hz. rewrite normalize_audio_no_gain by by apply rms_of_zeros.
  induction Hz as [|x audio [sign ->] _ IH]; [done|].
  cbn [fmap list_fmap]. f_equal; [|exact IH].
  apply clip_small; [done|done|reflexivity|by intros []].
Qed.

End MoreNormalize.

Lemma normalize_audio_nan_no_gain_witness :
  normalize_audio 53 1024 (np.sum_ltr 53 1024) (fun x => x) (fun _ y => y)
    [S754_infinity false; Float.nan; f64_minus_half] f64_one
  = [f64_one; Float.nan; f64_minus_half].
Proof.
  apply (normalize_audio_nan_no_gain 53 1024 (np.sum_ltr 53 1024)
           (fun x => x) (fun _ y => y) (sum_ltr_sums_to 53 1024)
           [S754_infinity false; Float.nan; f64_minus_half] f64_one).
  apply list_elem_of_further, list_elem_of_here.
Defined.

(** * The model loader *)

Section Runs.
Context {pf : Platform}.

Lemma bind_run {Self A B} (body : M Self A) (f : A -> M Self B) (m : machine Self) :
  (body ≫= f) m =
    match body m with
    | (m', Returns a) => f a m'
    | (m', Raises e) => (m', Raises e)
    end.
Proof. reflexivity. Qed.

Lemma bind_returns {Self A B} (body : M Self A) (f : A -> M Self B)
    (m m' : machine Self) (b : B) :
  (body ≫= f) m = (m', Returns b) ->
  exists (a : A) (m1 : machine Self), body m = (m1, Returns a) /\ f a m1 = (m', Returns b).
Proof.
  rewrite bind_run. destruct (body m) as [m1 [a|e]]; [|done]. eauto.
Qed.

Lemma emit_run {Self} (o : output) (m : machine Self) :
  emit o m = (Machine (world m) (out m ++ [o]) (self m), Returns ()).
Proof. reflexivity. Qed.

Lemma load_audio_run {Self} (audio_path : string) (target_sr : Z) (mono : bool)
    (m : machine Self) :
  load_audio audio_path target_sr mono m =
    match librosa_load audio_path target_sr mono (world m) with
    | (w, inr loaded) => (Machine w (out m) (self m), Returns loaded)
    | (w, inl e) =>
        (Machine w (out m) (self m),
         Raises (ValueError_from "Failed to load audio: " (Library e)))
    end.
Proof.
  unfold load_audio, try_except, call. rewrite bind_run.
  by destruct (librosa_load _ _ _ _) as [w [e|[audio sr]]].
Qed.

Lemma save_audio_run {Self} (audio : list float) (output_path : string) (sr : Z)
    (m : machine Self) :
  save_audio audio output_path sr m =
    match sf_write output_path audio sr (world m) with
    | (w, None) => (Machine w (out m) (self m), Returns output_path)
    | (w, Some e) =>
        (Machine w (out m) (self m),
         Raises (ValueError_from "Failed to save audio: " (Library e)))
    end.
Proof.
  unfold save_audio, try_except, call_. rewrite bind_run.
  by destruct (sf_write _ _ _ _) as [w [e|]].
Qed.

(** The conversion to a tensor touches neither what was printed nor the
    object: it runs alike in every machine with the same world. *)
Lemma audio_to_tensor_run {Self} (audio : list float) (device : string)
    (m : machine Self) :
  audio_to_tensor audio device m =
    let (m0, r) := audio_to_tensor audio device (Machine (world m) [] ()) in
    (Machine (world m0) (out m) (self m), r).
Proof.
  unfold audio_to_tensor, call. destruct (negb _); cbn [world out self].
  - by destruct (Tensor_to _ _ _) as [w r].
  - by destruct m.
Qed.

Lemma tensor_to_audio_cpu {Self} (data : list float) (m : machine Self) :
  tensor_to_audio (Tensor "cpu" data) m = (m, Returns data).
Proof. reflexivity. Qed.

End Runs.

(** The stub, with what it prints left aside. *)
Lemma synthesize_stub (str_float : float -> string) (device : string)
    (audio_prompt : list float) (text notes : string) (cfg_scale : float) :
  exists printed : list string,
    synthesize str_float device audio_prompt text notes cfg_scale =
      (printed, Ok (replicate (Z.to_nat 144000) Float.zero)).
Proof.
  unfold synthesize. cbv zeta.
  assert (Float.float_of_int 53 1024 48000 =
            Ok (S754_finite false 6597069766656000 (-37))) as -> by done.
  cbn [mbind result_bind].
  assert (Float.trunc (SFmul 53 1024 (S754_finite false 6597069766656000 (-37))
                         (Float.of_int 53 1024 3)) = Ok 144000) as -> by done.
  cbn [mbind result_bind]. rewrite zeros_cases.
  by eexists.
Qed.

Lemma print_lines_run {pf : Platform} {Self} (printed : list string) (m : machine Self) :
  foldr (fun line rest => print (Text line);; rest) (mret ()) printed m =
    (Machine (world m) (out m ++ ((fun line => Print (Text line)) <$> printed)) (self m),
     Returns ()).
Proof.
  unfold print. revert m. induction printed as [|line printed IH]; intros m.
  - cbn [foldr fmap list_fmap]. rewrite app_nil_r. by destruct m.
  - cbn [foldr fmap list_fmap].
    rewrite bind_run, emit_run, IH. cbn [world out self].
    by rewrite <- app_assoc.
Qed.

Section ModelFacts.
Context {pf : Platform}.
Import TCSinger2Model.

Lemma init_returns (model_path : option string) (m m' : machine unit) (this : t) :
  __init__ model_path m = (m', Returns this) ->
  no_components this /\ TCSinger2Model.model_path this = model_path
  /\ device this = device_chosen (world m).
Proof.
  unfold __init__, device_chosen.
  generalize config.MODEL_DIR, config.CACHE_DIR. intros dir1 dir2.
  assert (forall device (m1 : machine unit),
             (call_ (os_makedirs dir1);; call_ (os_makedirs dir2);;
              mret {| model_path := model_path; device := device;
                      model := None; vae := None; vocoder := None |}) m1
             = (m', Returns this) ->
             no_components this /\ TCSinger2Model.model_path this = model_path
             /\ TCSinger2Model.device this = device) as Hrest.
  { intros device m1. unfold mbind, M_bind, call_, mret, M_ret.
    destruct (os_makedirs dir1 (world m1)) as [w1 [e1|]]; [done|]. cbn [world out self].
    destruct (os_makedirs dir2 w1) as [w2 [e2|]]; [done|].
    by intros [= _ <-]. }
  unfold _setup_device, ask, print, emit.
  destruct MPS_AVAILABLE; [apply Hrest|].
  unfold mbind at 1, M_bind at 1. unfold mbind at 1, M_bind at 1.
  destruct (torch_cuda_is_available (world m)); apply Hrest.
Qed.

(** The constructor raises when a directory cannot be made, and then
    only. *)
Lemma init_raises (model_path : option string) (m m' : machine unit) (e : error) :
  __init__ model_path m = (m', Raises e) ->
  exists (dir : string) (w w' : World) (cause : LibraryError),
    dir ∈ [config.MODEL_DIR; config.CACHE_DIR]
    /\ os_makedirs dir w = (w', Some cause) /\ e = Library cause.
Proof.
  unfold __init__.
  assert (forall device (m1 : machine unit),
             (call_ (os_makedirs config.MODEL_DIR);;
              call_ (os_makedirs config.CACHE_DIR);;
              mret {| model_path := model_path; device := device;
                      model := None; vae := None; vocoder := None |}) m1
             = (m', Raises e) ->
             exists (dir : string) (w w' : World) (cause : LibraryError),
               dir ∈ [config.MODEL_DIR; config.CACHE_DIR]
               /\ os_makedirs dir w = (w', Some cause) /\ e = Library cause) as Hrest.
  { intros device m1. generalize config.MODEL_DIR, config.CACHE_DIR. intros dir1 dir2.
    unfold mbind, M_bind, call_, mret, M_ret.
    destruct (os_makedirs dir1 (world m1)) as [w1 [e1|]] eqn:H1.
    { intros [= _ <-]. exists dir1, (world m1), w1, e1.
      split; [apply list_elem_of_here|done]. }
    cbn [world out self].
    destruct (os_makedirs dir2 w1) as [w2 [e2|]] eqn:H2; [|done].
    intros [= _ <-]. exists dir2, w1, w2, e2.
    split; [apply list_elem_of_further, list_elem_of_here|done]. }
  unfold _setup_device, ask, print, emit.
  destruct MPS_AVAILABLE; [apply Hrest|].
  unfold mbind at 1, M_bind at 1. unfold mbind at 1, M_bind at 1.
  destruct (torch_cuda_is_available (world m)); apply Hrest.
Qed.

Lemma placeholder_run (m : machine t) :
  _create_placeholder_model m =
    (Machine (world m) (out m ++ [Print CreatingPlaceholder])
       (set_vocoder None (set_vae None (set_model None (self m)))),
     Returns ()).
Proof. reflexivity. Qed.

(** [load_model] never raises, and it leaves the attributes of the object
    as they are or clears the three components. *)
Lemma load_model_run (checkpoint_path : option string) (m : machine t) :
  exists (w : World) (o : list output),
    load_model checkpoint_path m = (Machine w o (self m), Returns ())
    \/ load_model checkpoint_path m =
         (Machine w o (set_vocoder None (set_vae None (set_model None (self m)))),
          Returns ()).
Proof.
  unfold load_model, mbind, M_bind, get_self, try_except, ask, call_, print, emit.
  cbn.
  destruct (match checkpoint_path with
            | Some _ => checkpoint_path | None => model_path (self m) end)
    as [path|].
  - cbn. destruct (os_path_exists path (world m)); cbn.
    + destruct (torch_load path (device (self m)) (world m)) as [w [e|]]; cbn.
      * eexists _, _. by right.
      * eexists _, _. by left.
    + eexists _, _. by right.
  - cbn. eexists _, _. by right.
Qed.

Lemma to_run (d : string) (m : machine t) :
  no_components (self m) ->
  to d m = (Machine (world m) (out m) (set_device d (self m)), Returns ()).
Proof.
  intros (Hm & Hv & Hc). unfold to, mbind, M_bind, assign, get_self. cbn.
  rewrite Hm. cbn. rewrite Hv. cbn. by rewrite Hc.
Qed.

(** The method [synthesize] prints, and returns 144000 zeros on the CPU. *)
Lemma synthesize_run {Self} (this : t) (audio_prompt : tensor) (text notes : string)
    (cfg_scale : float) (m : machine Self) :
  exists (o : list output) (data : list float),
    TCSinger2Model.synthesize this audio_prompt text notes cfg_scale m =
      (Machine (world m) (out m ++ o) (self m), Returns (Tensor "cpu" data))
    /\ data = replicate (Z.to_nat 144000) Float.zero.
Proof.
  unfold TCSinger2Model.synthesize.
  destruct (synthesize_stub str_of_float (device this) (tensor_data audio_prompt)
              text notes cfg_scale) as [printed ->].
  generalize (replicate (Z.to_nat 144000) Float.zero). intros data.
  eexists _, data. split; [|reflexivity].
  by rewrite bind_run, print_lines_run.
Qed.

Lemma invoke_no_components (c : method) (m : machine t) :
  no_components (self m) -> no_components (self (invoke c m).1).
Proof.
  intros H. destruct c as [checkpoint_path| |audio_prompt text notes cfg_scale|d];
    cbn [invoke].
  - destruct (load_model_run checkpoint_path m) as (w & o & [-> | ->]); done.
  - by rewrite placeholder_run.
  - unfold mbind, M_bind, get_self.
    destruct (synthesize_run (self m) audio_prompt text notes cfg_scale m)
      as (o & data & -> & _).
    done.
  - rewrite to_run by done. destruct H as (? & ? & ?). done.
Qed.

Lemma reachable_no_components (m : machine t) :
  reachable m -> no_components (self m).
Proof.
  induction 1 as [model_path m m' this Hinit|c m _ IH|m w o _ IH].
  - by apply init_returns in Hinit as [? _].
  - by apply invoke_no_components.
  - done.
Qed.

Lemma load_pretrained_model_run (model_id checkpoint_path cache_dir : option string)
    (m : machine unit) :
  match load_pretrained_model model_id checkpoint_path cache_dir m with
  | (_, Returns this) =>
      model_path this = checkpoint_path
      /\ device this = device_chosen (world m)
      /\ no_components this
  | (_, Raises e) =>
      exists (dir : string) (w w' : World) (cause : LibraryError),
        dir ∈ [config.MODEL_DIR; config.CACHE_DIR]
        /\ os_makedirs dir w = (w', Some cause) /\ e = Library cause
  end.
Proof.
  unfold load_pretrained_model. cbv zeta. rewrite bind_run.
  destruct (__init__ checkpoint_path m) as [m1 [this|e]] eqn:Hinit.
  - apply init_returns in Hinit as (Hnone & Hpath & Hdev).
    rewrite bind_run. unfold on.
    destruct (load_model_run None (Machine (world m1) (out m1) this))
      as (w & o & [-> | ->]); cbn [self]; unfold mret, M_ret.
    + done.
    + repeat split; done.
  - by apply init_raises in Hinit.
Qed.

(** X11.  No code path ever sets a component: in every machine a model
    can be in, after any calls of [load_model], [synthesize] and [to] with
    any checkpoints in any world, [model], [vae] and [vocoder] are [None].
    So [to] never moves anything and never raises: it sets [device] and
    that is all. *)
Theorem model_components_stay_empty (m : machine t) :
  reachable m ->
  no_components (self m)
  /\ forall d : string,
       to d m = (Machine (world m) (out m) (set_device d (self m)), Returns ()).
Proof.
  intros H%reachable_no_components. split; [done|].
  intros d. by apply to_run.
Qed.

(** X12.  A checkpoint that is missing or that torch cannot read is no
    error: [load_pretrained_model] raises only when [os.makedirs] does.
    Otherwise it returns a model with the path as given, the device chosen
    by availability (mps, then cuda, then cpu) and no component; the model
    id and the cache directory change nothing. *)
Theorem load_pretrained_model_fallback
    (model_id checkpoint_path cache_dir : option string) (m : machine unit) :
  match load_pretrained_model model_id checkpoint_path cache_dir m with
  | (_, Returns this) =>
      model_path this = checkpoint_path
      /\ device this = device_chosen (world m)
      /\ no_components this
  | (_, Raises e) =>
      exists (dir : string) (w w' : World) (cause : LibraryError),
        dir ∈ [config.MODEL_DIR; config.CACHE_DIR]
        /\ os_makedirs dir w = (w', Some cause) /\ e = Library cause
  end
  /\ load_pretrained_model model_id checkpoint_path cache_dir
     = load_pretrained_model None checkpoint_path None.
Proof. split; [apply load_pretrained_model_run|reflexivity]. Qed.

End ModelFacts.

Lemma model_components_stay_empty_witness :
  let m := (invoke (pf := quiet) (call_to "cuda")
              (invoke (pf := quiet) (call_load_model (Some "/tmp/demo"))
                 (Machine (pf := quiet) ["/tmp/demo"] [] quiet_model)).1).1 in
  no_components (pf := quiet) (self m)
  /\ forall d : string,
       TCSinger2Model.to (pf := quiet) d m
       = (Machine (world m) (out m) (TCSinger2Model.set_device d (self m)), Returns ()).
Proof.
  apply (model_components_stay_empty (pf := quiet)).
  do 2 apply reachable_invoke.
  apply (reachable_world (pf := quiet)
           (Machine (pf := quiet)
              ["/srv/app/../models"; "/srv/app/../models/cache"]
              [Print UsingCpu] quiet_model) ["/tmp/demo"] []).
  apply (reachable_init (pf := quiet) None (Machine (pf := quiet) [] [] ())
           (Machine (pf := quiet)
              ["/srv/app/../models"; "/srv/app/../models/cache"]
              [Print UsingCpu] ()) quiet_model).
  reflexivity.
Defined.

(** * The demo application *)

Section Strip.
Import Py.

Lemma rstrip_is_empty (p : ascii -> bool) (s : string) :
  is_empty (rstrip_by p s) = all_chars p s.
Proof.
  induction s as [|c s IH]; [done|]. cbn [rstrip_by all_chars].
  rewrite <- IH. by destruct (p c), (is_empty (rstrip_by p s)).
Qed.

Lemma lstrip_all_chars (p : ascii -> bool) (s : string) :
  all_chars p (lstrip_by p s) = all_chars p s.
Proof.
  induction s as [|c s IH]; [done|]. cbn [lstrip_by all_chars].
  destruct (p c) eqn:Hc; [done|]. cbn [all_chars]. by rewrite Hc.
Qed.

(** [not s.strip()] holds of the texts made of blanks only. *)
Lemma strip_is_empty (s : string) : is_empty (strip s) = all_chars isspace s.
Proof. unfold strip. by rewrite rstrip_is_empty, lstrip_all_chars. Qed.

End Strip.

Section Demo.
Context {py : Interpreter} {pf : Platform}.
Import TCSinger2DemoApp.

Local Abbreviation loading := (Progress (tenths 1) "Loading audio prompt...").
Local Abbreviation processing := (Progress (tenths 2) "Processing audio prompt...").
Local Abbreviation parsing := (Progress (tenths 3) "Parsing musical notes...").

Ltac step H a m1 Hstep :=
  apply bind_returns in H as (a & m1 & Hstep & H).

Ltac emitted H :=
  let u := fresh in let m1 := fresh "m" in let Hstep := fresh in
  apply bind_returns in H as (u & m1 & Hstep & H);
  unfold progress, print in Hstep; rewrite emit_run in Hstep;
  injection Hstep as <- _.

Ltac try_body H :=
  unfold synthesize_singing, try_except;
  lazymatch goal with
  | |- context [match ?body with pair _ _ => _ end] =>
      destruct body as [?m [?r|?e]] eqn:H
  end.

(** The method catches what is raised: it always returns. *)
Lemma synthesize_singing_returns (audio_prompt : option string) (lyrics notes : string)
    (cfg_scale : float) (m : machine t) :
  exists (m' : machine t) (result : option string * message),
    synthesize_singing audio_prompt lyrics notes cfg_scale m = (m', Returns result).
Proof. try_body H; by eexists _, _. Qed.

(** A path is returned only after the notes were parsed. *)
Lemma synthesize_singing_parsed (audio_prompt : option string) (lyrics notes : string)
    (cfg_scale : float) (m m' : machine t) (path : string) (status : message) :
  synthesize_singing audio_prompt lyrics notes cfg_scale m
    = (m', Returns (Some path, status)) ->
  succeeds (parse_notes notes).
Proof.
  try_body H; [|done]. intros [= -> ->].
  emitted H.
  destruct audio_prompt as [audio_prompt|]; [|done].
  destruct (Py.is_empty (Py.strip lyrics)); [done|].
  destruct (Py.is_empty (Py.strip notes)); [done|].
  emitted H.
  step H loaded m2 Hload. destruct loaded as [prompt_audio sr].
  step H this m3 Hthis.
  step H prompt_tensor m4 Htensor.
  emitted H.
  step H parsed_notes m5 Hparse.
  destruct (parse_notes notes) as [tokens|e]; [by exists tokens|done].
Qed.

Lemma synthesize_singing_saved (audio_prompt : option string) (lyrics notes : string)
    (cfg_scale : float) (m m' : machine t) (path : string) (status : message) :
  (forall xs : list float, np.sums_to 24 128 xs (numpy_sum xs)) ->
  synthesize_singing audio_prompt lyrics notes cfg_scale m
    = (m', Returns (Some path, status)) ->
  path = os_path.join (temp_dir (self m)) ["synthesized_output.wav"]
  /\ status = SynthesisComplete lyrics notes cfg_scale
                (TCSinger2Model.device (model (self m))) (Float.of_int 53 1024 3)
  /\ (exists w : World,
         sf_write path (replicate (Z.to_nat 144000) Float.zero) config.SAMPLE_RATE w
         = (world m', None))
  /\ self m' = self m.
Proof.
  intros Hsum. try_body H; [|done].
  intros [= -> ->].
  emitted H.
  destruct audio_prompt as [audio_prompt|]; [|done].
  destruct (Py.is_empty (Py.strip lyrics)); [done|].
  destruct (Py.is_empty (Py.strip notes)); [done|].
  emitted H.
  step H loaded m2 Hload. destruct loaded as [prompt_audio sr].
  rewrite load_audio_run in Hload. cbn [world out self] in Hload.
  destruct (librosa_load _ _ _ _) as [w1 [e|loaded]]; [done|].
  injection Hload as <- _.
  step H this m3 Hthis. injection Hthis as <- <-. cbn [self] in H.
  step H prompt_tensor m4 Htensor.
  rewrite audio_to_tensor_run in Htensor. cbn [world out self] in Htensor.
  destruct (audio_to_tensor _ _ _) as [m0 r0].
  injection Htensor as <- _. cbn [world out self] in H.
  emitted H.
  step H parsed_notes m5 Hparse.
  destruct (parse_notes notes) as [tokens|e] eqn:Hnotes; [|done].
  injection Hparse as <- _.
  emitted H.
  step H output_tensor m6 Hsynth.
  lazymatch type of Hsynth with
  | TCSinger2Model.synthesize ?this ?p ?l ?n ?c ?m1 = _ =>
      destruct (synthesize_run this p l n c m1) as (o & data & Ho & Hdata)
  end.
  rewrite Ho in Hsynth. injection Hsynth as <- <-. cbn [world out self] in H.
  emitted H.
  step H output_audio m7 Haudio.
  rewrite tensor_to_audio_cpu in Haudio. injection Haudio as <- <-.
  cbv zeta in H.
  rewrite normalize_audio_zeros in H; [|done|lia|lia|].
  2:{ rewrite Hdata. apply Forall_replicate. by exists false. }
  emitted H.
  step H saved m8 Hsave.
  rewrite save_audio_run in Hsave. cbn [world out self] in Hsave.
  destruct (sf_write _ _ _ _) as [w3 [e|]] eqn:Hwrite; [done|].
  injection Hsave as <- _.
  emitted H.
  injection H as <- <- <-. cbn [world self].
  split; [done|]. split.
  { f_equal. rewrite Hdata, length_replicate, Z2Nat.id by lia. reflexivity. }
  split; [exists (world m0); by rewrite <- Hdata|done].
Qed.

(** The run in which every step succeeds. *)
Lemma synthesize_singing_runs (path lyrics notes : string) (cfg_scale : float)
    (m : machine t) (prompt_audio : list float) (sr : Z) (w1 w3 : World)
    (m0 : machine unit) (prompt_tensor : tensor) (tokens : list parsed_note) :
  (forall xs : list float, np.sums_to 24 128 xs (numpy_sum xs)) ->
  ~ is_blank lyrics -> ~ is_blank notes ->
  librosa_load path config.SAMPLE_RATE true (world m) = (w1, inr (prompt_audio, sr)) ->
  audio_to_tensor prompt_audio (TCSinger2Model.device (model (self m)))
    (Machine w1 [] ())
  = (m0, Returns prompt_tensor) ->
  parse_notes notes = Ok tokens ->
  sf_write (os_path.join (temp_dir (self m)) ["synthesized_output.wav"])
    (replicate (Z.to_nat 144000) Float.zero) config.SAMPLE_RATE (world m0)
  = (w3, None) ->
  exists o : list output,
    synthesize_singing (Some path) lyrics notes cfg_scale m =
      (Machine w3 (out m ++ o) (self m),
       Returns (Some (os_path.join (temp_dir (self m)) ["synthesized_output.wav"]),
                SynthesisComplete lyrics notes cfg_scale
                  (TCSinger2Model.device (model (self m))) (Float.of_int 53 1024 3))).
Proof.
  intros Hsum Hlyrics Hnotes Hload Htensor Hparse Hwrite.
  unfold is_blank in Hlyrics, Hnotes.
  unfold synthesize_singing, try_except, progress, print.
  rewrite bind_run, emit_run, !strip_is_empty.
  destruct (Py.all_chars Py.isspace lyrics); [done|].
  destruct (Py.all_chars Py.isspace notes); [done|].
  rewrite bind_run, emit_run, bind_run, load_audio_run. cbn [world out self].
  rewrite Hload. rewrite bind_run. unfold get_self at 1. cbn [world out self].
  rewrite bind_run, audio_to_tensor_run. cbn [world out self]. rewrite Htensor.
  rewrite bind_run, emit_run, bind_run, Hparse. cbn [lift world out self].
  unfold mret at 1, M_ret at 1.
  rewrite bind_run, emit_run, bind_run. cbn [world out self].
  lazymatch goal with
  | |- context [TCSinger2Model.synthesize ?this ?p ?l ?n ?c ?m1] =>
      destruct (synthesize_run this p l n c m1) as (o & data & -> & Hdata)
  end.
  cbn [world out self].
  rewrite bind_run, emit_run, bind_run, tensor_to_audio_cpu. cbv zeta.
  rewrite normalize_audio_zeros; [|done|lia|lia|].
  2:{ rewrite Hdata. apply Forall_replicate. by exists false. }
  rewrite bind_run, emit_run, bind_run, save_audio_run. cbn [world out self].
  rewrite Hdata, Hwrite, bind_run, emit_run. unfold mret, M_ret. cbn [world out self].
  rewrite length_replicate, Z2Nat.id by lia.
  rewrite <- !app_assoc. by eexists.
Qed.

(** X13.  Starting the application fails only when a directory cannot be
    made, by [os.makedirs] or by [tempfile.mkdtemp]; no checkpoint, good or
    bad, makes it fail, and the model it holds has no component. *)
Theorem demo_app_init (model_path : option string) (m : machine unit) :
  match __init__ model_path m with
  | (_, Returns app) =>
      no_components (model app)
      /\ TCSinger2Model.model_path (model app) = model_path
      /\ TCSinger2Model.device (model app) = device_chosen (world m)
  | (_, Raises e) =>
      exists cause : LibraryError,
        e = Library cause
        /\ ((exists (dir : string) (w w' : World),
                dir ∈ [config.MODEL_DIR; config.CACHE_DIR]
                /\ os_makedirs dir w = (w', Some cause))
            \/ (exists w w' : World, tempfile_mkdtemp w = (w', inl cause)))
  end.
Proof.
  unfold __init__, print. rewrite bind_run, emit_run, bind_run.
  pose proof (load_pretrained_model_run None model_path None
                (Machine (world m) (out m ++ [Print Initializing]) (self m))) as Hload.
  destruct (load_pretrained_model _ _ _ _) as [m1 [this|e]].
  - cbn [world] in Hload. destruct Hload as (Hpath & Hdev & Hnone).
    rewrite bind_run. unfold call.
    destruct (tempfile_mkdtemp (world m1)) as [w [cause|dir]] eqn:Htemp.
    + exists cause. split; [done|]. right. by exists (world m1), w.
    + rewrite !bind_run, !emit_run. done.
  - destruct Hload as (dir & w & w' & cause & Hdir & Hmk & ->).
    exists cause. split; [done|]. left. by exists dir, w, w'.
Qed.

(** X14.  What is checked first, before any file is read: without a
    prompt, or with lyrics or notes made of blanks only, the method
    returns no path and the matching request, in this order; it has
    reported the first step of progress and touched nothing else. *)
Theorem synthesize_singing_invalid (audio_prompt : option string) (lyrics notes : string)
    (cfg_scale : float) (m : machine t) :
  let rejected (msg : message) :=
    synthesize_singing audio_prompt lyrics notes cfg_scale m =
      (Machine (world m) (out m ++ [loading]) (self m), Returns (None, msg)) in
  match audio_prompt with
  | None => rejected PleaseUploadAudioPrompt
  | Some _ =>
      (is_blank lyrics -> rejected PleaseEnterLyrics)
      /\ (~ is_blank lyrics -> is_blank notes -> rejected PleaseEnterNotes)
  end.
Proof.
  cbv zeta. unfold synthesize_singing, try_except, progress, is_blank.
  rewrite bind_run, emit_run, !strip_is_empty.
  destruct audio_prompt as [audio_prompt|]; [|done]. split.
  - by intros ->.
  - intros Hl ->. by destruct (Py.all_chars Py.isspace lyrics).
Qed.

(** X15.  Notes that [parse_notes] rejects make the synthesis fail,
    though the parsed notes are used nowhere: whatever the prompt, the
    lyrics and the world, no path is returned.  When the prompt loads, the
    status is the error of [parse_notes]; the model is not run and nothing
    is written. *)
Theorem synthesize_singing_rejected_notes (audio_prompt : option string)
    (lyrics notes : string) (cfg_scale : float) (e : exn) (m : machine t) :
  parse_notes notes = Raise e ->
  (exists (m' : machine t) (msg : message),
      synthesize_singing audio_prompt lyrics notes cfg_scale m
      = (m', Returns (None, msg)))
  /\ (forall (path : string) (prompt_audio : list float) (sr : Z) (w1 : World)
             (m0 : machine unit) (prompt_tensor : tensor),
         audio_prompt = Some path -> ~ is_blank lyrics ->
         librosa_load path config.SAMPLE_RATE true (world m)
         = (w1, inr (prompt_audio, sr)) ->
         audio_to_tensor prompt_audio (TCSinger2Model.device (model (self m)))
           (Machine w1 [] ())
         = (m0, Returns prompt_tensor) ->
         synthesize_singing audio_prompt lyrics notes cfg_scale m
         = (Machine (world m0)
              (out m ++ [loading; processing; parsing;
                         Print (ErrorDuringSynthesis (Builtin e))])
              (self m),
            Returns (None, ErrorDuringSynthesis (Builtin e)))).
Proof.
  intros Hraise. split.
  - destruct (synthesize_singing_returns audio_prompt lyrics notes cfg_scale m)
      as (m' & [[path|] msg] & Hrun); [|by exists m', msg].
    apply synthesize_singing_parsed in Hrun as [tokens Hok]. congruence.
  - intros path prompt_audio sr w1 m0 prompt_tensor -> Hlyrics Hload Htensor.
    assert (Py.all_chars Py.isspace notes = false) as Hnotes.
    { destruct (Py.all_chars Py.isspace notes) eqn:Hb; [|done].
      apply parse_notes_blank in Hb. congruence. }
    unfold synthesize_singing, try_except, progress, print.
    rewrite bind_run, emit_run, !strip_is_empty, Hnotes.
    unfold is_blank in Hlyrics. destruct (Py.all_chars Py.isspace lyrics); [done|].
    rewrite bind_run, emit_run, bind_run, load_audio_run. cbn [world out self].
    rewrite Hload. rewrite bind_run. unfold get_self at 1. cbn [world out self].
    rewrite bind_run, audio_to_tensor_run. cbn [world out self]. rewrite Htensor.
    rewrite bind_run, emit_run, bind_run, Hraise. cbn [lift raise world out self].
    rewrite bind_run, emit_run. unfold mret, M_ret. cbn [world out self].
    by rewrite <- !app_assoc.
Qed.

(** X16.  Whenever the method returns a path, what it has written there is
    three seconds of zeros at 48000 Hz, whatever the prompt, the lyrics,
    the notes and the scale: the path is in the temporary directory, the
    status gives the length 3.0 seconds, and the notes were parsed.
    [numpy_sum] adds in an order of its own. *)
Theorem synthesize_singing_output (audio_prompt : option string) (lyrics notes : string)
    (cfg_scale : float) (m m' : machine t) (path : string) (status : message) :
  (forall xs : list float, np.sums_to 24 128 xs (numpy_sum xs)) ->
  synthesize_singing audio_prompt lyrics notes cfg_scale m
    = (m', Returns (Some path, status)) ->
  path = os_path.join (temp_dir (self m)) ["synthesized_output.wav"]
  /\ status = SynthesisComplete lyrics notes cfg_scale
                (TCSinger2Model.device (model (self m))) (Float.of_int 53 1024 3)
  /\ (exists w : World,
         sf_write path (replicate (Z.to_nat 144000) Float.zero) config.SAMPLE_RATE w
         = (world m', None))
  /\ succeeds (parse_notes notes)
  /\ self m' = self m.
Proof.
  intros Hsum Hrun.
  destruct (synthesize_singing_saved _ _ _ _ _ _ _ _ Hsum Hrun) as (Hp & Hs & Hw & Hself).
  apply synthesize_singing_parsed in Hrun. done.
Qed.

End Demo.

Lemma synthesize_singing_invalid_witness :
  TCSinger2DemoApp.synthesize_singing (pf := quiet) (Some "a.wav") " 	" "C4"
    (tenths 35) quiet_machine
  = (Machine (pf := quiet) ["a.wav"]
       [Progress (tenths 1) "Loading audio prompt..."] quiet_app,
     Returns (None, PleaseEnterLyrics)).
Proof.
  apply (proj1 (synthesize_singing_invalid (pf := quiet) (Some "a.wav") " 	" "C4"
                  (tenths 35) quiet_machine)).
  reflexivity.
Defined.

Lemma synthesize_singing_rejected_notes_witness :
  exists (m' : machine (pf := quiet) TCSinger2DemoApp.t) (msg : message),
    TCSinger2DemoApp.synthesize_singing (pf := quiet) (Some "a.wav") "la la"
      ("C4 " +:+ superscript_two) (tenths 35) quiet_machine
    = (m', Returns (None, msg)).
Proof.
  exact (proj1 (synthesize_singing_rejected_notes (pf := quiet) (Some "a.wav") "la la"
                  ("C4 " +:+ superscript_two) (tenths 35)
                  (ValueError_int superscript_two) quiet_machine eq_refl)).
Defined.

Lemma synthesize_singing_output_witness :
  (exists w : list string,
      sf_write (Platform := quiet) "/tmp/demo/synthesized_output.wav"
        (replicate (Z.to_nat 144000) Float.zero) 48000 w
      = (["a.wav"; "/tmp/demo/synthesized_output.wav"], None))
  /\ succeeds (parse_notes "C4 D4").
Proof.
  destruct (synthesize_singing_runs (pf := quiet) "a.wav" "la la" "C4 D4" (tenths 35)
              quiet_machine [Float.zero] 48000 ["a.wav"]
              ["a.wav"; "/tmp/demo/synthesized_output.wav"]
              (Machine (pf := quiet) ["a.wav"] [] ())
              (Tensor "cpu" [Float.zero]) [Name "C4"; Name "D4"]
              (sum_ltr_sums_to 24 128) ltac:(discriminate) ltac:(discriminate)
              eq_refl eq_refl eq_refl eq_refl) as [o Hrun].
  destruct (synthesize_singing_output (pf := quiet) _ _ _ _ _ _ _ _
              (sum_ltr_sums_to 24 128) Hrun) as (_ & _ & Hw & Hp & _).
  exact (conj Hw Hp).
Defined.
